(** * Topology state machine and CQL server controller

    A shallow embedding of [service/topology_state_machine.hh] (the
    replicated topology data model, namespace [service]) and of the CQL
    transport controller (namespace [cql_transport], the start/stop
    lifecycle of the native-transport server), with the properties of the
    data model and of the lifecycle that the specification relies on.

    Conventions.
    - Fixed-width integers are [Z] with their range written out
      ([uint16_t] underlying values of the enumerations, [int64_t] for
      [topology::version_t], [uint32_t] for token counts).
    - [std::unordered_map] / [std::unordered_set] / [std::set] are stdpp's
      [gmap] / [gset]; [std::optional] is [option]; [std::variant] is an
      inductive type with one constructor per alternative.
    - [raft::server_id], [utils::UUID] and [service::session_id] are
      128-bit identifiers, embedded as [N]. *)

From Stdlib Require Import ZArith List String Bool Lia Sorted.
From stdpp Require Import base decidable finite gmap sets list strings.

Local Open Scope Z_scope.

(** ** Fixed-width integer ranges *)

Definition uint16_max : Z := 65535.
Definition int64_min : Z := Eval cbv in - 2 ^ 63.
Definition int64_max : Z := Eval cbv in 2 ^ 63 - 1.
Definition uint64_max : Z := Eval cbv in 2 ^ 64 - 1.

Definition in_uint16 (z : Z) : Prop := 0 <= z <= uint16_max.
Definition in_int64 (z : Z) : Prop := int64_min <= z <= int64_max.
Definition in_uint64 (z : Z) : Prop := 0 <= z <= uint64_max.

(** Conversion of an arbitrary integer (for instance the 64 bits read off
    the wire as an unsigned number) to [int64_t]: two's-complement
    wrap-around. *)
Definition two_to_64 : Z := Eval cbv in 2 ^ 64.

Definition to_int64 (z : Z) : Z := (z - int64_min) mod two_to_64 + int64_min.

Module Service.

(** Identifier types of collaborating subsystems. *)
Abbreviation server_id := N (only parsing).
Abbreviation UUID := N (only parsing).
Abbreviation sstring := string (only parsing).
Abbreviation token := Z (only parsing).

(** ** Enumerations *)

(** [enum class node_state : uint16_t] *)
Inductive node_state : Set :=
| none
| bootstrapping
| decommissioning
| removing
| replacing
| rebuilding
| normal
| left
| rollback_to_normal.

(** [enum class topology_request : uint16_t].  The order of the requests
    is a priority order in which requests are executed in case there are
    multiple requests in the queue. *)
Inductive topology_request : Set :=
| replace
| join
| remove
| leave
| rebuild.

(** [enum class cleanup_status : uint16_t] *)
Inductive cleanup_status : Set :=
| clean
| needed
| running.

(** [enum class global_topology_request : uint16_t] *)
Inductive global_topology_request : Set :=
| new_cdc_generation
| cleanup.

(** [enum class topology::transition_state : uint16_t] *)
Inductive transition_state : Set :=
| join_group0
| commit_cdc_generation
| tablet_draining
| write_both_read_old
| write_both_read_new
| tablet_migration
| left_token_ring.

(** [enum class raft_topology_cmd::command : uint16_t] *)
Inductive command : Set :=
| barrier
| barrier_and_drain
| stream_ranges
| wait_for_ip.

(** [enum class raft_topology_cmd_result::command_status : uint16_t] *)
Inductive command_status : Set :=
| fail
| success.

(** The underlying [uint16_t] value of each enumerator: enumerators
    without initialiser count up from zero in declaration order. *)
Definition node_state_value (s : node_state) : Z :=
  match s with
  | none => 0 | bootstrapping => 1 | decommissioning => 2 | removing => 3
  | replacing => 4 | rebuilding => 5 | normal => 6 | left => 7
  | rollback_to_normal => 8
  end.

Definition topology_request_value (r : topology_request) : Z :=
  match r with
  | replace => 0 | join => 1 | remove => 2 | leave => 3 | rebuild => 4
  end.

Definition transition_state_value (s : transition_state) : Z :=
  match s with
  | join_group0 => 0 | commit_cdc_generation => 1 | tablet_draining => 2
  | write_both_read_old => 3 | write_both_read_new => 4
  | tablet_migration => 5 | left_token_ring => 6
  end.

Definition command_value (c : command) : Z :=
  match c with
  | barrier => 0 | barrier_and_drain => 1 | stream_ranges => 2
  | wait_for_ip => 3
  end.

Definition command_status_value (s : command_status) : Z :=
  match s with fail => 0 | success => 1 end.


Definition transition_state_of_value (v : Z) : option transition_state :=
  match v with
  | 0 => Some join_group0 | 1 => Some commit_cdc_generation
  | 2 => Some tablet_draining | 3 => Some write_both_read_old
  | 4 => Some write_both_read_new | 5 => Some tablet_migration
  | 6 => Some left_token_ring
  | _ => None
  end.

Definition topology_request_of_value (v : Z) : option topology_request :=
  match v with
  | 0 => Some replace | 1 => Some join | 2 => Some remove | 3 => Some leave
  | 4 => Some rebuild
  | _ => None
  end.

#[global] Instance node_state_eq_dec : EqDecision node_state.
Proof. solve_decision. Defined.
#[global] Instance topology_request_eq_dec : EqDecision topology_request.
Proof. solve_decision. Defined.
#[global] Instance cleanup_status_eq_dec : EqDecision cleanup_status.
Proof. solve_decision. Defined.
#[global] Instance global_topology_request_eq_dec :
  EqDecision global_topology_request.
Proof. solve_decision. Defined.
#[global] Instance transition_state_eq_dec : EqDecision transition_state.
Proof. solve_decision. Defined.
#[global] Instance command_eq_dec : EqDecision command.
Proof. solve_decision. Defined.
#[global] Instance command_status_eq_dec : EqDecision command_status.
Proof. solve_decision. Defined.

(** The enumerators in declaration order. *)
Definition node_state_enumerators : list node_state :=
  [none; bootstrapping; decommissioning; removing; replacing; rebuilding;
   normal; left; rollback_to_normal].

Definition topology_request_enumerators : list topology_request :=
  [replace; join; remove; leave; rebuild].

Definition transition_state_enumerators : list transition_state :=
  [join_group0; commit_cdc_generation; tablet_draining; write_both_read_old;
   write_both_read_new; tablet_migration; left_token_ring].

Definition command_enumerators : list command :=
  [barrier; barrier_and_drain; stream_ranges; wait_for_ip].

Definition command_status_enumerators : list command_status :=
  [fail; success].

Ltac finite_enum :=
  first
    [ by (apply (bool_decide_unpack _); vm_compute)
    | by (intros []; repeat constructor) ].

#[global, refine] Instance node_state_finite : Finite node_state :=
  {| enum := node_state_enumerators |}.
Proof. all: finite_enum. Defined.

#[global, refine] Instance topology_request_finite : Finite topology_request :=
  {| enum := topology_request_enumerators |}.
Proof. all: finite_enum. Defined.

#[global, refine] Instance transition_state_finite : Finite transition_state :=
  {| enum := transition_state_enumerators |}.
Proof. all: finite_enum. Defined.

#[global, refine] Instance command_finite : Finite command :=
  {| enum := command_enumerators |}.
Proof. all: finite_enum. Defined.

#[global, refine] Instance command_status_finite : Finite command_status :=
  {| enum := command_status_enumerators |}.
Proof. all: finite_enum. Defined.

(** ** Request parameters *)

Record join_param : Type := { num_tokens : Z (* uint32_t *) }.

Record rebuild_param : Type := { source_dc : sstring }.

Record removenode_param : Type := { remove_ignored_ids : gset server_id }.

Record replace_param : Type :=
  { replaced_id : server_id;
    replace_ignored_ids : gset server_id }.

(** [using request_param = std::variant<join_param, rebuild_param,
    removenode_param, replace_param>] *)
Inductive request_param : Type :=
| of_join_param (p : join_param)
| of_rebuild_param (p : rebuild_param)
| of_removenode_param (p : removenode_param)
| of_replace_param (p : replace_param).


(** The request kind an alternative is the parameter bundle of, as the
    alternatives are named: [join_param] for [join], [rebuild_param] for
    [rebuild], [removenode_param] for [remove], [replace_param] for
    [replace]. *)
Definition param_request (p : request_param) : topology_request :=
  match p with
  | of_join_param _ => join
  | of_rebuild_param _ => rebuild
  | of_removenode_param _ => remove
  | of_replace_param _ => replace
  end.

(** [std::holds_alternative] for the alternative that belongs to
    request kind [k]; [leave] has no alternative. *)
Definition holds_param_of (k : topology_request) (p : request_param) : bool :=
  match k, p with
  | join, of_join_param _ => true
  | rebuild, of_rebuild_param _ => true
  | remove, of_removenode_param _ => true
  | replace, of_replace_param _ => true
  | _, _ => false
  end.

(** ** Replica state *)

Record ring_slice : Type := { tokens : gset token }.

Record replica_state : Type :=
  { state : node_state;
    datacenter : sstring;
    rack : sstring;
    release_version : sstring;
    ring : option ring_slice;
    shard_count : N;
    ignore_msb : Z (* uint8_t *);
    supported_features : gset sstring;
    cleanup_state : cleanup_status;
    request_id : UUID }.

(** [cdc::generation_id_v2]: a timestamp and a UUID. *)
Record generation_id_v2 : Type := { ts : Z; id : UUID }.

(** ** Topology *)

(** [topology::initial_version] *)
Definition initial_version : Z := 1.

Record topology : Type :=
  { tstate : option transition_state;
    version : Z (* version_t = int64_t *);
    fence_version : Z;
    normal_nodes : gmap server_id replica_state;
    left_nodes : gset server_id;
    new_nodes : gmap server_id replica_state;
    transition_nodes : gmap server_id replica_state;
    requests : gmap server_id topology_request;
    req_param : gmap server_id request_param;
    global_request : option global_topology_request;
    current_cdc_generation_id : option generation_id_v2;
    new_cdc_generation_data_uuid : option UUID;
    unpublished_cdc_generations : list generation_id_v2;
    enabled_features : gset sstring;
    session : UUID;
    tablet_balancing_enabled : bool }.

(** A default-constructed [topology]: the default member initialisers for
    [version], [fence_version] and [tablet_balancing_enabled], and
    value-initialisation (empty containers, disengaged optionals, the
    null UUID) for the rest. *)
Definition topology_default : topology :=
  {| tstate := None;
     version := initial_version;
     fence_version := initial_version;
     normal_nodes := ∅;
     left_nodes := ∅;
     new_nodes := ∅;
     transition_nodes := ∅;
     requests := ∅;
     req_param := ∅;
     global_request := None;
     current_cdc_generation_id := None;
     new_cdc_generation_data_uuid := None;
     unpublished_cdc_generations := [];
     enabled_features := ∅;
     session := 0%N;
     tablet_balancing_enabled := true |}.

(** ** Coordinator commands *)

Record raft_topology_cmd : Type := { cmd : command }.

Record raft_topology_cmd_result : Type := { status : command_status }.

(** [command_status status = command_status::fail;] *)
Definition raft_topology_cmd_result_default : raft_topology_cmd_result :=
  {| status := fail |}.

(** ** Fencing token *)

Record fencing_token : Type := { topology_version : Z (* version_t *) }.

(** [topology::version_t topology_version{0};] *)
Definition fencing_token_default : fencing_token :=
  {| topology_version := 0 |}.

(** A token built from the 64 bits carried by an RPC. *)
Definition fencing_token_of_wire (w : Z) : fencing_token :=
  {| topology_version := to_int64 w |}.

(** The values a [fencing_token] can hold: those of [int64_t]. *)
Definition fencing_token_ok (t : fencing_token) : Prop :=
  in_int64 (topology_version t).

(** [explicit operator bool() const { return topology_version != 0; }] *)
Definition fencing_token_bool (t : fencing_token) : bool :=
  negb (topology_version t =? 0).

End Service.

(** ** Request selection by the topology coordinator *)

Module Coordinator.
Import Service.

(** Modelled from the spec: what the coordinator works on next, a
    per-node request or the global request.  The coordinator itself
    ([service/topology_coordinator]) is not among the files embedded
    here, only the topology header it works on. *)
Inductive selection : Type :=
| node_request (node : server_id) (r : topology_request)
| global (g : global_topology_request).

(** Modelled from the spec: "node id order"; the smallest of a list of
    node ids. *)
Definition min_id (ids : list server_id) : option server_id :=
  foldr (λ i acc, Some (from_option (N.min i) i acc)) None ids.

(** Modelled from the spec: the nodes with a pending request of kind
    [k], read off the [requests] map of the topology. *)
Definition pending_ids (k : topology_request)
    (reqs : gmap server_id topology_request) : list server_id :=
  (filter (λ kv, kv.2 = k) (map_to_list reqs)).*1.

(** Modelled from the spec: the coordinator's choice among the nodes
    with a pending request of one kind.  "Ties among nodes at the same
    priority are broken by node id order." *)
Definition pending_node (k : topology_request)
    (reqs : gmap server_id topology_request) : option server_id :=
  min_id (pending_ids k reqs).

(** Modelled from the spec: the coordinator's selection rule, which lives
    in the coordinator's source and not in the topology header.
    "Selection rule when the coordinator is idle: if any replace is
    pending, pick it; else any join; else remove; else leave; else
    rebuild; else a global_request if present." *)
Definition select_request (reqs : gmap server_id topology_request)
    (g : option global_topology_request) : option selection :=
  match pending_node replace reqs with
  | Some i => Some (node_request i replace)
  | None =>
  match pending_node join reqs with
  | Some i => Some (node_request i join)
  | None =>
  match pending_node remove reqs with
  | Some i => Some (node_request i remove)
  | None =>
  match pending_node leave reqs with
  | Some i => Some (node_request i leave)
  | None =>
  match pending_node rebuild reqs with
  | Some i => Some (node_request i rebuild)
  | None => global <$> g
  end end end end end.

(** Modelled from the spec: the order in which a queue of per-node
    requests is served when each selected request is carried out and
    cleared before the next selection (at most [fuel] selections). *)
Fixpoint service_order (fuel : nat) (reqs : gmap server_id topology_request)
    : list (server_id * topology_request) :=
  match fuel with
  | O => []
  | S fuel' =>
      match select_request reqs None with
      | Some (node_request i k) => (i, k) :: service_order fuel' (delete i reqs)
      | _ => []
      end
  end.

(** *** The per-node state machine *)





(** *** The request queue *)









End Coordinator.

(** ** The CQL server controller *)

Module CqlTransport.

Local Open Scope string_scope.
Local Open Scope Z_scope.

(** *** Collaborators: addresses, configuration, file system, gossip *)

(** [net::inet_address::family] *)
Inductive family : Set := INET | INET6.

Abbreviation inet_address := N (only parsing).

Inductive socket_address : Type :=
| inet_socket (ip : inet_address) (port : Z (* uint16_t *))
| unix_domain_addr (path : string).

#[global] Instance socket_address_eq_dec : EqDecision socket_address.
Proof. solve_decision. Defined.

(** [seastar::tls::credentials_builder], configured from the client
    encryption options. *)
Record credentials_builder : Type :=
  { creds_options : gmap string string }.

(** The [listen_cfg] local to [do_start_server]; a null [cred] is [None]. *)
Record listen_cfg : Type :=
  { addr : socket_address;
    is_shard_aware : bool;
    cred : option credentials_builder }.

(** A [db::config] option: whether it was set, and its current value
    (the default when it was not). *)
Record named_value (A : Type) : Type :=
  { is_set : bool; value : A }.
Arguments is_set {A} _.
Arguments value {A} _.

(** The options of [db::config] that the controller reads. *)
Record config : Type :=
  { rpc_interface_prefer_ipv6 : bool;
    enable_ipv6_dns_lookup : bool;
    client_encryption_options : gmap string string;
    rpc_keepalive : bool;
    rpc_address : string;
    native_transport_port : named_value Z;
    native_transport_port_ssl : named_value Z;
    native_shard_aware_transport_port : named_value Z;
    native_shard_aware_transport_port_ssl : named_value Z;
    partitioner : string;
    murmur3_partitioner_ignore_msb_bits : Z;
    enable_shard_aware_drivers : bool;
    maintenance_socket : string;
    work_directory : string }.

(** [cql_server_config], without the timeouts and the service group. *)
Record cql_server_config : Type :=
  { max_request_size : Z;
    partitioner_name : string;
    sharding_ignore_msb : Z;
    shard_aware_transport_port : option Z;
    shard_aware_transport_port_ssl : option Z;
    allow_shard_aware_drivers : bool }.

(** The [sharded<cql_server>] owned by the controller once started. *)
Record cql_server : Type :=
  { server_config : cql_server_config;
    listening : list listen_cfg }.

(** File types as [::stat] reports them in [st_mode].  [::stat] follows
    symbolic links, so a link is never what it reports. *)
Inductive file_type : Set :=
| S_IFSOCK | S_IFREG | S_IFDIR | S_IFIFO | S_IFCHR | S_IFBLK.

Definition S_ISSOCK (m : file_type) : bool :=
  match m with S_IFSOCK => true | _ => false end.

Inductive errno : Set :=
| ENOENT | EACCES | EPERM | ENOTDIR | ELOOP | EROFS | EBUSY | EISDIR | EIO.

#[global] Instance errno_eq_dec : EqDecision errno.
Proof. solve_decision. Defined.

Definition strerror (e : errno) : string :=
  match e with
  | ENOENT => "No such file or directory"
  | EACCES => "Permission denied"
  | EPERM => "Operation not permitted"
  | ENOTDIR => "Not a directory"
  | ELOOP => "Too many levels of symbolic links"
  | EROFS => "Read-only file system"
  | EBUSY => "Device or resource busy"
  | EISDIR => "Is a directory"
  | EIO => "Input/output error"
  end.

(** What the file system holds under a path, as this process sees it:
    an object of some type, or a symbolic link to another path (its
    target, written as the path it resolves to), either of which
    [unlink] removes unless it fails there with the given error, or a
    path whose lookup fails. *)
Inductive fs_entry : Type :=
| object (t : file_type) (unlink_error : option errno)
| symlink (target : string) (unlink_error : option errno)
| unreachable (e : errno).

(** Result of [::stat]: [0] and the mode, or [-1] and [errno]. *)
Inductive stat_result : Type :=
| stat_ok (st_mode : file_type)
| stat_failed (e : errno).

(** [gms::application_state] and [gms::versioned_value], as far as the
    controller uses them. *)
Inductive application_state : Set := RPC_READY.

Inductive versioned_value : Set := cql_ready (ready : bool).

(** Exceptions: [std::runtime_error], Seastar's own, and whatever a
    collaborator throws. *)
Inductive exn : Type :=
| runtime_error (what : string)
| broken_semaphore
| gate_closed_exception
| external_error (what : string).

(** Outcomes of the calls into collaborators, which the controller does
    not decide: Seastar, the gossiper, the CQL server, the memory
    limiter and the helpers [utils::resolve], [utils::is_true] and
    [utils::configure_tls_creds_builder].  [None] in a [_fails] field
    means the call succeeds. *)
Record env : Type :=
  { create_smp_service_group_fails : option exn;
    resolve : string → option family → option family → exn + inet_address;
    is_true : string → bool;
    configure_tls_creds_builder_fails : option exn;
    total_memory : Z;
    server_start_fails : option exn;
    subscribe_fails : option exn;
    listen_fails : socket_address → option exn;
    add_local_application_state_fails :
      application_state → versioned_value → option exn;
    unsubscribe_fails : option exn;
    shutdown_fails : option exn;
    stop_ready : bool }.

(** Calls into collaborators, in the order they are made. *)
Inductive event : Type :=
| EvCreateSmpServiceGroup (max_nonlocal_requests : Z)
| EvResolve (host : string) (fam preferred : option family)
| EvConfigureTls
| EvStat (path : string) (r : stat_result)
| EvUnlink (path : string) (failure : option errno)
| EvServerStart (c : cql_server_config)
| EvSubscribe
| EvUnsubscribe
| EvListen (c : listen_cfg) (keepalive : bool) (failure : option exn)
| EvAddLocalApplicationState
    (key : application_state) (v : versioned_value) (failure : option exn)
| EvShutdown
| EvServerStop.

(** *** Seastar primitives

    Seastar is a library the controller is built on; its semaphore and
    gate are embedded as Seastar documents them. *)

(** [seastar::semaphore]: the number of available units, the number of
    suspended [wait()] callers, and whether it was broken. *)
Record semaphore : Type :=
  { count : Z; waiters : nat; broken : bool }.

Definition make_semaphore (n : Z) : semaphore :=
  {| count := n; waiters := 0; broken := false |}.

Definition has_available_units (sem : semaphore) (nr : Z) : bool :=
  (0 <=? count sem) && (nr <=? count sem).

Definition may_proceed (sem : semaphore) (nr : Z) : bool :=
  has_available_units sem nr && bool_decide (waiters sem = 0%nat).

(** [_count -= 1] *)
Definition take_unit (sem : semaphore) : semaphore :=
  {| count := count sem - 1; waiters := waiters sem; broken := broken sem |}.

(** [try_wait(1)]: takes a unit when one is available, and says so. *)
Definition try_wait (sem : semaphore) : bool * semaphore :=
  if may_proceed sem 1 then (true, take_unit sem) else (false, sem).

(** [signal(1)]: nothing on a broken semaphore; otherwise the unit is
    returned and, when a [wait()] caller is suspended, handed on to the
    first of them at once.  The result also says whether a waiter was
    resumed. *)
Definition signal (sem : semaphore) : bool * semaphore :=
  if broken sem then (false, sem)
  else
    let c := count sem + 1 in
    if bool_decide (waiters sem ≠ 0%nat) && (0 <=? c) && (1 <=? c)
    then (true, {| count := c - 1; waiters := pred (waiters sem);
                   broken := false |})
    else (false, {| count := c; waiters := waiters sem; broken := false |}).

(** [broken()]: no units any more, and every suspended [wait()] fails. *)
Definition break_semaphore (sem : semaphore) : semaphore :=
  {| count := 0; waiters := 0; broken := true |}.

(** [seastar::gate]: holders entered and not yet left. *)
Record gate : Type := { holders : nat; closed : bool }.

(** *** The controller *)

(** The members of [cql_transport::controller] that its member functions
    read and write. *)
Record controller : Type :=
  { _ops_sem : semaphore;
    _server : option cql_server;
    _listen_addresses : list socket_address;
    _stopped : bool;
    _bg_stops : gate;
    _config : config;
    _used_by_maintenance_socket : bool }.

(** [controller::controller]: [_ops_sem(1)], no server, not stopped. *)
Definition make_controller (cfg : config)
    (used_by_maintenance_socket : bool) : controller :=
  {| _ops_sem := make_semaphore 1;
     _server := None;
     _listen_addresses := [];
     _stopped := false;
     _bg_stops := {| holders := 0; closed := false |};
     _config := cfg;
     _used_by_maintenance_socket := used_by_maintenance_socket |}.

(** The controller together with the part of the world it acts on. *)
Record state : Type :=
  { this : controller;
    fs : gmap string fs_entry;
    rpc_ready : option versioned_value }.

Definition with_this (f : controller → controller) (s : state) : state :=
  {| this := f (this s); fs := fs s; rpc_ready := rpc_ready s |}.

Definition with_fs (f : gmap string fs_entry → gmap string fs_entry)
    (s : state) : state :=
  {| this := this s; fs := f (fs s); rpc_ready := rpc_ready s |}.

Definition with_rpc_ready (v : versioned_value) (s : state) : state :=
  {| this := this s; fs := fs s; rpc_ready := Some v |}.

Definition set_ops_sem (sem : semaphore) (c : controller) : controller :=
  {| _ops_sem := sem; _server := _server c;
     _listen_addresses := _listen_addresses c; _stopped := _stopped c;
     _bg_stops := _bg_stops c; _config := _config c;
     _used_by_maintenance_socket := _used_by_maintenance_socket c |}.

Definition set_server (srv : option cql_server) (c : controller)
    : controller :=
  {| _ops_sem := _ops_sem c; _server := srv;
     _listen_addresses := _listen_addresses c; _stopped := _stopped c;
     _bg_stops := _bg_stops c; _config := _config c;
     _used_by_maintenance_socket := _used_by_maintenance_socket c |}.

Definition set_listen_addresses (l : list socket_address) (c : controller)
    : controller :=
  {| _ops_sem := _ops_sem c; _server := _server c;
     _listen_addresses := l; _stopped := _stopped c;
     _bg_stops := _bg_stops c; _config := _config c;
     _used_by_maintenance_socket := _used_by_maintenance_socket c |}.

Definition set_stopped (b : bool) (c : controller) : controller :=
  {| _ops_sem := _ops_sem c; _server := _server c;
     _listen_addresses := _listen_addresses c; _stopped := b;
     _bg_stops := _bg_stops c; _config := _config c;
     _used_by_maintenance_socket := _used_by_maintenance_socket c |}.

Definition set_bg_stops (g : gate) (c : controller) : controller :=
  {| _ops_sem := _ops_sem c; _server := _server c;
     _listen_addresses := _listen_addresses c; _stopped := _stopped c;
     _bg_stops := g; _config := _config c;
     _used_by_maintenance_socket := _used_by_maintenance_socket c |}.

(** *** Computations: state, exceptions and the trace of external calls *)

Inductive outcome (A : Type) : Type :=
| returned (a : A)
| thrown (e : exn).
Arguments returned {A} _.
Arguments thrown {A} _.

Definition M (A : Type) : Type := state → outcome A * state * list event.

#[global] Instance M_ret : MRet M := λ A a s, (returned a, s, []).

#[global] Instance M_bind : MBind M := λ A B k m s,
  match m s with
  | (returned a, s1, t1) =>
      let '(r, s2, t2) := k a s1 in (r, s2, (t1 ++ t2)%list)
  | (thrown e, s1, t1) => (thrown e, s1, t1)
  end.

Definition throw {A} (e : exn) : M A := λ s, (thrown e, s, []).

Definition emit (e : event) : M unit := λ s, (returned tt, s, [e]).

Definition gets {A} (f : state → A) : M A := λ s, (returned (f s), s, []).

Definition modify (f : state → state) : M unit :=
  λ s, (returned tt, f s, []).

(** The outcome of a call that a collaborator decides. *)
Definition external (failure : option exn) : M unit :=
  match failure with
  | Some e => throw e
  | None => mret tt
  end.

(** [try { m } catch (...) { ex = std::current_exception(); }] *)
Definition try_catch (m : M unit) : M (option exn) := λ s,
  match m s with
  | (returned _, s1, t) => (returned None, s1, t)
  | (thrown e, s1, t) => (returned (Some e), s1, t)
  end.

(** [auto g = defer(cleanup); body; g.cancel();]: the cleanup runs when
    the body is left by an exception. *)
Definition on_error {A} (cleanup : M unit) (body : M A) : M A := λ s,
  match body s with
  | (thrown e, s1, t1) =>
      let '(_, s2, t2) := cleanup s1 in (thrown e, s2, (t1 ++ t2)%list)
  | r => r
  end.

(** [fut.finally(f)] *)
Definition finally {A} (m : M A) (f : M unit) : M A := λ s,
  let '(r, s1, t1) := m s in
  let '(_, s2, t2) := f s1 in (r, s2, (t1 ++ t2)%list).

(** *** System calls and collaborator calls *)

(** What [::stat] finds at [path] after following at most [links]
    symbolic links: the object at the end of the chain, [ENOENT] when
    the chain ends at nothing (a dangling link), [ELOOP] when the chain
    is longer. *)
Fixpoint stat_follow (links : nat) (files : gmap string fs_entry)
    (path : string) : stat_result :=
  match files !! path with
  | Some (object t _) => stat_ok t
  | Some (symlink target _) =>
      match links with
      | O => stat_failed ELOOP
      | S links' => stat_follow links' files target
      end
  | Some (unreachable e) => stat_failed e
  | None => stat_failed ENOENT
  end.

(** The number of symbolic links a path lookup follows at most. *)
Definition MAXSYMLINKS : nat := 40.

Definition stat_of (files : gmap string fs_entry) (path : string)
    : stat_result :=
  stat_follow MAXSYMLINKS files path.

(** [::unlink] removes the entry at the path itself: a symbolic link is
    removed, not what it leads to. *)
Definition unlink_of (files : gmap string fs_entry) (path : string)
    : option errno * gmap string fs_entry :=
  match files !! path with
  | Some (object S_IFDIR _) => (Some EISDIR, files)
  | Some (object _ None) | Some (symlink _ None) =>
      (None, delete path files)
  | Some (object _ (Some e)) | Some (symlink _ (Some e)) =>
      (Some e, files)
  | Some (unreachable e) => (Some e, files)
  | None => (Some ENOENT, files)
  end.

(** [::stat(path, &statbuf)] *)
Definition stat (path : string) : M stat_result :=
  r ← gets (λ s, stat_of (fs s) path);
  emit (EvStat path r);;
  mret r.

(** [::unlink(path)]; the result is [errno] when it fails. *)
Definition unlink (path : string) : M (option errno) :=
  r ← gets (λ s, unlink_of (fs s) path);
  modify (with_fs (λ _, r.2));;
  emit (EvUnlink path r.1);;
  mret r.1.

(** [utils::resolve(host, family, preferred).get0()] *)
Definition resolve_address (E : env) (host : string)
    (fam preferred : option family) : M inet_address :=
  emit (EvResolve host fam preferred);;
  match resolve E host fam preferred with
  | inl e => throw e
  | inr ip => mret ip
  end.

(** [cserver->invoke_on_all(&cql_server::listen, ...)]; binding a
    unix-domain address creates the socket file. *)
Definition listen (E : env) (keepalive : bool) (c : listen_cfg) : M unit :=
  let failure := listen_fails E (addr c) in
  emit (EvListen c keepalive failure);;
  external failure;;
  match addr c with
  | unix_domain_addr path =>
      modify (with_fs (<[path := object S_IFSOCK None]>))
  | inet_socket _ _ => mret tt
  end.

(** [parallel_for_each(l, f).get()]: every call is made, and the first
    failure, if any, is reported once all are done. *)
Fixpoint parallel_for_each {A} (l : list A) (f : A → M unit) : M unit :=
  match l with
  | [] => mret tt
  | x :: l' =>
      ex ← try_catch (f x);
      ex' ← try_catch (parallel_for_each l' f);
      match ex, ex' with
      | Some e, _ => throw e
      | None, Some e => throw e
      | None, None => mret tt
      end
  end.

(** [gossiper::add_local_application_state(key, value)] *)
Definition add_local_application_state (E : env) (key : application_state)
    (v : versioned_value) : M unit :=
  let failure := add_local_application_state_fails E key v in
  emit (EvAddLocalApplicationState key v failure);;
  external failure;;
  modify (with_rpc_ready v).

(** *** Member functions of the controller *)

(** [controller::set_cql_ready] *)
Definition set_cql_ready (E : env) (ready : bool) : M unit :=
  add_local_application_state E RPC_READY (cql_ready ready).

(** [controller::subscribe_server] *)
Definition subscribe_server (E : env) : M unit :=
  emit EvSubscribe;;
  external (subscribe_fails E).

(** [controller::unsubscribe_server] *)
Definition unsubscribe_server (E : env) : M unit :=
  emit EvUnsubscribe;;
  external (unsubscribe_fails E).

(** [server.invoke_on_all([] (auto& s) { return s.shutdown(); })] *)
Definition shutdown (E : env) : M unit :=
  emit EvShutdown;;
  external (shutdown_fails E).

(** [_listen_addresses.push_back(a)] *)
Definition push_listen_address (a : socket_address) : M unit :=
  modify (with_this
    (λ c, set_listen_addresses (_listen_addresses c ++ [a])%list c)).

Definition set_cred (cr : credentials_builder) (c : listen_cfg)
    : listen_cfg :=
  {| addr := addr c; is_shard_aware := is_shard_aware c; cred := Some cr |}.

(** The [get_cql_server_config] lambda of [do_start_server]. *)
Definition get_cql_server_config (E : env) (cfg : config)
    : cql_server_config :=
  let shard_aware_transport_port :=
    if is_set (native_shard_aware_transport_port cfg)
    then Some (value (native_shard_aware_transport_port cfg)) else None in
  let shard_aware_transport_port_ssl :=
    if is_set (native_shard_aware_transport_port_ssl cfg)
    then Some (value (native_shard_aware_transport_port_ssl cfg))
    else None in
  {| max_request_size := total_memory E;
     partitioner_name := partitioner cfg;
     sharding_ignore_msb := murmur3_partitioner_ignore_msb_bits cfg;
     shard_aware_transport_port := shard_aware_transport_port;
     shard_aware_transport_port_ssl := shard_aware_transport_port_ssl;
     allow_shard_aware_drivers := enable_shard_aware_drivers cfg |}.

(** The branch [if (!_used_by_maintenance_socket)] of
    [do_start_server]: the TCP listeners. *)
Definition tcp_configs (E : env) (cfg : config)
    (fam preferred : option family) : M (list listen_cfg) :=
  let ceo := client_encryption_options cfg in
  let ntp := native_transport_port cfg in
  let ntp_ssl := native_transport_port_ssl cfg in
  let nsatp := native_shard_aware_transport_port cfg in
  let nsatp_ssl := native_shard_aware_transport_port_ssl cfg in
  ip ← resolve_address E (rpc_address cfg) fam preferred;
  let configs : list listen_cfg := [] in
  let native_port_idx := -1 in
  let native_shard_aware_port_idx := -1 in
  '(configs, native_port_idx) ←
    (if is_set ntp || (negb (is_set ntp_ssl) && negb (is_set ntp))
     then
       let c := {| addr := inet_socket ip (value ntp);
                   is_shard_aware := false; cred := None |} in
       push_listen_address (addr c);;
       mret ((configs ++ [c])%list, 0)
     else mret (configs, native_port_idx));
  '(configs, native_shard_aware_port_idx) ←
    (if is_set nsatp || (negb (is_set nsatp_ssl) && negb (is_set nsatp))
     then
       let c := {| addr := inet_socket ip (value nsatp);
                   is_shard_aware := true; cred := None |} in
       push_listen_address (addr c);;
       mret ((configs ++ [c])%list, native_port_idx + 1)
     else mret (configs, native_shard_aware_port_idx));
  if is_true E (default "false" (ceo !! "enabled"))
  then
    let cr := {| creds_options := ceo |} in
    emit EvConfigureTls;;
    external (configure_tls_creds_builder_fails E);;
    configs ←
      (if is_set ntp_ssl
          && (negb (is_set ntp) || negb (value ntp_ssl =? value ntp))
       then
         let c := {| addr := inet_socket ip (value ntp_ssl);
                     is_shard_aware := false; cred := Some cr |} in
         push_listen_address (addr c);;
         mret (configs ++ [c])%list
       else if 0 <=? native_port_idx
       then mret (alter (set_cred cr) (Z.to_nat native_port_idx) configs)
       else mret configs);
    (if is_set nsatp_ssl
        && (negb (is_set nsatp) || negb (value nsatp_ssl =? value nsatp))
     then
       let c := {| addr := inet_socket ip (value nsatp_ssl);
                   is_shard_aware := true; cred := Some cr |} in
       push_listen_address (addr c);;
       mret (configs ++ [c])%list
     else if 0 <=? native_shard_aware_port_idx
     then mret (alter (set_cred cr)
                  (Z.to_nat native_shard_aware_port_idx) configs)
     else mret configs)
  else mret configs.

(** The path the maintenance socket is served on. *)
Definition maintenance_socket_path (cfg : config) : string :=
  let socket := maintenance_socket cfg in
  if bool_decide (socket = "workdir")
  then work_directory cfg +:+ "/cql.m"
  else socket.

(** The [else] branch of [do_start_server]: the maintenance socket. *)
Definition maintenance_configs (cfg : config) : M (list listen_cfg) :=
  let socket := maintenance_socket_path cfg in
  if 107 <? Z.of_nat (String.length socket)
  then throw (runtime_error
         ("Maintenance socket path is too long: " +:+ socket
          +:+ ". Change it to string shorter than 108 chars."))
  else
    stat_result ← stat socket;
    match stat_result with
    | stat_ok st_mode =>
        if negb (S_ISSOCK st_mode)
        then throw (runtime_error
               ("Under maintenance socket path (" +:+ socket
                +:+ ") there is something else."))
        else mret tt
    | stat_failed e =>
        if bool_decide (e ≠ ENOENT)
        then throw (runtime_error
               ("Failed to stat " +:+ socket +:+ ": " +:+ strerror e))
        else mret tt
    end;;
    unlink_result ← unlink socket;
    match unlink_result with
    | Some e =>
        if bool_decide (e ≠ ENOENT)
        then throw (runtime_error
               ("Failed to unlink " +:+ socket +:+ ": " +:+ strerror e))
        else mret tt
    | None => mret tt
    end;;
    let c := {| addr := unix_domain_addr socket;
                is_shard_aware := false; cred := None |} in
    push_listen_address (addr c);;
    mret [c].

(** [controller::do_start_server].  The two deferred actions
    ([on_error], [on_error_unsub]) run in reverse order of declaration
    when the body is left by an exception. *)
Definition do_start_server (E : env) : M unit :=
  srv ← gets (λ s, _server (this s));
  match srv with
  | Some _ => mret tt
  | None =>
      cfg ← gets (λ s, _config (this s));
      let preferred :=
        if rpc_interface_prefer_ipv6 cfg then Some INET6 else None in
      let fam :=
        if enable_ipv6_dns_lookup cfg || bool_decide (is_Some preferred)
        then None else Some INET in
      let keepalive := rpc_keepalive cfg in
      emit (EvCreateSmpServiceGroup 5000);;
      external (create_smp_service_group_fails E);;
      modify (with_this (set_listen_addresses []));;
      used ← gets (λ s, _used_by_maintenance_socket (this s));
      configs ←
        (if negb used then tcp_configs E cfg fam preferred
         else maintenance_configs cfg);
      let server_cfg := get_cql_server_config E cfg in
      emit (EvServerStart server_cfg);;
      external (server_start_fails E);;
      on_error (emit EvServerStop)
        (subscribe_server E;;
         on_error (emit EvUnsubscribe)
           (parallel_for_each configs (listen E keepalive);;
            set_cql_ready E true;;
            modify (with_this (set_server
              (Some {| server_config := server_cfg;
                       listening := configs |})))))
  end.

(** The gate in
    [(void)server.stop().finally([s = std::move(cserver),
                                  h = _bg_stops.hold()] {})]:
    [hold()] throws on a closed gate; the holder lives in the
    continuation of [server.stop()] and leaves the gate when the stop
    resolves, which is at once when the future of [stop()] is ready
    and later otherwise (action [bg_stop_resolved] below). *)
Definition hold_bg_stops (E : env) : M unit :=
  g ← gets (λ s, _bg_stops (this s));
  if closed g then throw gate_closed_exception
  else if stop_ready E then mret tt
  else modify (with_this
         (set_bg_stops {| holders := S (holders g); closed := false |})).

(** [controller::do_stop_server].  The server is stopped in the
    background, under a hold of [_bg_stops]. *)
Definition do_stop_server (E : env) : M unit :=
  cserver ← gets (λ s, _server (this s));
  modify (with_this (set_server None));;
  match cserver with
  | None => mret tt
  | Some server =>
      ex ← try_catch (set_cql_ready E false);
      ex' ← try_catch (unsubscribe_server E;; shutdown E);
      let ex := match ex with Some e => Some e | None => ex' end in
      emit EvServerStop;;
      hold_bg_stops E;;
      match ex with
      | Some e => throw e
      | None => mret tt
      end
  end.

(** [_ops_sem.try_wait()] *)
Definition try_wait_ops_sem : M bool :=
  r ← gets (λ s, try_wait (_ops_sem (this s)));
  modify (with_this (set_ops_sem r.2));;
  mret r.1.

(** [_ops_sem.signal()] *)
Definition signal_ops_sem : M unit :=
  modify (with_this (λ c, set_ops_sem (signal (_ops_sem c)).2 c)).

(** [controller::start_server] *)
Definition start_server (E : env) : M unit :=
  acquired ← try_wait_ops_sem;
  if negb acquired
  then throw (runtime_error "CQL server is stopping, try again later")
  else finally (do_start_server E) signal_ops_sem.

(** [controller::request_stop_server] *)
Definition request_stop_server (E : env) : M unit :=
  acquired ← try_wait_ops_sem;
  if negb acquired
  then throw (runtime_error "CQL server is starting, try again later")
  else finally (do_stop_server E) signal_ops_sem.

(** [controller::listen_addresses] *)
Definition listen_addresses (c : controller) : list socket_address :=
  match _server c with
  | Some _ => _listen_addresses c
  | None => []
  end.

(** *** Calls that overlap

    [start_server] and [request_stop_server] take the unit of [_ops_sem]
    when they are called and give it back when their future resolves;
    other calls may arrive in between.  An operation that holds the unit
    is in flight; its body takes effect when it completes. *)

(** The entry points that hold the unit while they run. *)
Inductive operation : Set :=
| op_start_server
| op_request_stop_server
| op_stop_server.

(** The controller and its world, and the operation whose future has
    not resolved yet, if any. *)
Record system : Type :=
  { now : state;
    in_flight : option operation }.

(** What can happen next: one of the three entry points is called, the
    operation in flight completes (with the collaborators behaving as
    [E] says), another process changes the file system, or the stop of
    a server in the background resolves. *)
Inductive action : Type :=
| call_start_server
| call_request_stop_server
| call_stop_server
| complete (E : env)
| outside (files : gmap string fs_entry)
| bg_stop_resolved.

(** [controller::stop_server] from the point where [_ops_sem.wait()] has
    returned up to the call of [do_stop_server]:
    [_stopped = true; _ops_sem.broken(); _listen_addresses.clear();] *)
Definition stop_server_acquired (c : controller) : controller :=
  set_listen_addresses []
    (set_ops_sem (break_semaphore (_ops_sem c)) (set_stopped true c)).

(** [co_await _bg_stops.close()]: the gate is closed at once, and the
    future resolves when the last holder has left it.  This is the gate
    at that point. *)
Definition close_bg_stops (c : controller) : controller :=
  set_bg_stops {| holders := 0; closed := true |} c.

(** The stop of a server in the background resolves: its holder leaves
    the gate. *)
Definition leave_bg_stops (c : controller) : controller :=
  set_bg_stops {| holders := pred (holders (_bg_stops c));
                  closed := closed (_bg_stops c) |} c.

(** [wait()] with no unit available: the caller is suspended. *)
Definition add_waiter (sem : semaphore) : semaphore :=
  {| count := count sem; waiters := S (waiters sem); broken := broken sem |}.

(** The state after the in-flight operation [op] has completed under
    [E], and whether giving back the unit resumed a suspended
    [stop_server]. *)
Definition completed (E : env) (op : operation) (s : state)
    : state * bool :=
  match op with
  | op_start_server =>
      ((finally (do_start_server E) signal_ops_sem s).1.2,
       (signal (_ops_sem (this s))).1)
  | op_request_stop_server =>
      ((finally (do_stop_server E) signal_ops_sem s).1.2,
       (signal (_ops_sem (this s))).1)
  | op_stop_server =>
      (match do_stop_server E s with
       | (returned _, s1, _) => with_this close_bg_stops s1
       | (thrown _, s1, _) => s1
       end, false)
  end.

(** One action.  A call of [start_server] or [request_stop_server] that
    finds no unit throws and changes nothing.  [stop_server] returns at
    once when [_stopped] is set, goes ahead when [wait()] finds a unit,
    fails when the semaphore is broken, and is suspended otherwise; a
    suspended [stop_server] goes ahead as soon as the unit is given
    back.  [stop_server] has completed when [_bg_stops.close()] has
    resolved, that is, when every stop in the background has
    resolved. *)
Definition step (a : action) (y : system) : system :=
  match a with
  | call_start_server =>
      match try_wait_ops_sem (now y) with
      | (returned true, s, _) =>
          {| now := s; in_flight := Some op_start_server |}
      | _ => y
      end
  | call_request_stop_server =>
      match try_wait_ops_sem (now y) with
      | (returned true, s, _) =>
          {| now := s; in_flight := Some op_request_stop_server |}
      | _ => y
      end
  | call_stop_server =>
      let c := this (now y) in
      if _stopped c then y
      else if may_proceed (_ops_sem c) 1
      then {| now := with_this (λ c, stop_server_acquired
                       (set_ops_sem (take_unit (_ops_sem c)) c)) (now y);
              in_flight := Some op_stop_server |}
      else if broken (_ops_sem c) then y
      else {| now := with_this
                       (λ c, set_ops_sem (add_waiter (_ops_sem c)) c) (now y);
              in_flight := in_flight y |}
  | complete E =>
      match in_flight y with
      | None => y
      | Some op =>
          let '(s, resumed) := completed E op (now y) in
          if resumed
          then {| now := with_this stop_server_acquired s;
                  in_flight := Some op_stop_server |}
          else {| now := s; in_flight := None |}
      end
  | outside files =>
      {| now := with_fs (λ _, files) (now y); in_flight := in_flight y |}
  | bg_stop_resolved =>
      {| now := with_this leave_bg_stops (now y); in_flight := in_flight y |}
  end.

(** The system after a sequence of actions, the first action first. *)
Definition run (l : list action) (y : system) : system :=
  foldl (λ y a, step a y) y l.

(** A freshly constructed controller in some world. *)
Definition initially (cfg : config) (used_by_maintenance_socket : bool)
    (files : gmap string fs_entry) : system :=
  {| now := {| this := make_controller cfg used_by_maintenance_socket;
               fs := files; rpc_ready := None |};
     in_flight := None |}.

(** The states a controller can be in. *)
Definition reachable (y : system) : Prop :=
  ∃ cfg m files l, y = run l (initially cfg m files).

(** *** Vocabulary of the properties *)

(** A relation between the state before, the state after and the calls
    made in between, maintained by a computation from every state. *)
Definition maintains (I : state → state → list event → Prop)
    {A} (m : M A) : Prop :=
  ∀ s, I s (m s).1.2 (m s).2.

(** The members that only the lifecycle entry points write. *)
Definition lifecycle_kept (s s' : state) (t : list event) : Prop :=
  _ops_sem (this s') = _ops_sem (this s)
  ∧ _stopped (this s') = _stopped (this s)
  ∧ _config (this s') = _config (this s)
  ∧ _used_by_maintenance_socket (this s')
    = _used_by_maintenance_socket (this s).

(** The calls made while the listeners are worked out, before a server
    exists. *)
Definition is_setup (e : event) : bool :=
  match e with
  | EvCreateSmpServiceGroup _ | EvResolve _ _ _ | EvConfigureTls
  | EvStat _ _ | EvUnlink _ _ => true
  | _ => false
  end.

(** What the semaphore tells about the operation in flight. *)
Definition lifecycle_invariant (y : system) : Prop :=
  let c := this (now y) in
  let sem := _ops_sem c in
  match in_flight y with
  | Some op_stop_server =>
      count sem = 0 ∧ waiters sem = 0%nat ∧ broken sem = true
      ∧ _stopped c = true
  | Some _ =>
      count sem = 0 ∧ broken sem = false ∧ _stopped c = false
  | None =>
      if _stopped c
      then count sem = 0 ∧ waiters sem = 0%nat ∧ broken sem = true
      else count sem = 1 ∧ waiters sem = 0%nat ∧ broken sem = false
  end.


Definition is_listen (e : event) : bool :=
  match e with EvListen _ _ _ => true | _ => false end.


(** A call that did not fail. *)
Definition succeeded {A} (failure : option A) : bool :=
  match failure with None => true | Some _ => false end.

(** The gossip call of [set_cql_ready(ready)]. *)
Definition ready_event (ready : bool) (failure : option exn) : event :=
  EvAddLocalApplicationState RPC_READY (cql_ready ready) failure.

(** The first phase of [do_start_server] once the service group exists:
    working out the listeners from the configuration. *)
Definition configure_listeners (E : env) (cfg : config)
    (used_by_maintenance_socket : bool) : M (list listen_cfg) :=
  let preferred :=
    if rpc_interface_prefer_ipv6 cfg then Some INET6 else None in
  let fam :=
    if enable_ipv6_dns_lookup cfg || bool_decide (is_Some preferred)
    then None else Some INET in
  if negb used_by_maintenance_socket
  then tcp_configs E cfg fam preferred
  else maintenance_configs cfg.

(** The last phase of [do_start_server], from [subscribe_server] on. *)
Definition serve (E : env) (keepalive : bool)
    (server_cfg : cql_server_config) (configs : list listen_cfg) : M unit :=
  on_error (emit EvServerStop)
    (subscribe_server E;;
     on_error (emit EvUnsubscribe)
       (parallel_for_each configs (listen E keepalive);;
        set_cql_ready E true;;
        modify (with_this (set_server
          (Some {| server_config := server_cfg;
                   listening := configs |}))))).

(** The calls of the last phase in closed form. *)
Definition listen_events (E : env) (keepalive : bool)
    (configs : list listen_cfg) : list event :=
  (λ c, EvListen c keepalive (listen_fails E (addr c))) <$> configs.

Definition listens_succeed (E : env) (configs : list listen_cfg) : bool :=
  forallb (λ c, succeeded (listen_fails E (addr c))) configs.

Definition serve_events (E : env) (keepalive : bool)
    (configs : list listen_cfg) : list event :=
  (EvSubscribe ::
   match subscribe_fails E with
   | Some _ => [EvServerStop]
   | None =>
       listen_events E keepalive configs ++
       (if listens_succeed E configs
        then
          let failure :=
            add_local_application_state_fails E RPC_READY (cql_ready true) in
          ready_event true failure ::
          (if succeeded failure then [] else [EvUnsubscribe; EvServerStop])
        else [EvUnsubscribe; EvServerStop])
   end)%list.

Definition serve_succeeds (E : env) (configs : list listen_cfg) : bool :=
  succeeded (subscribe_fails E) && listens_succeed E configs
  && succeeded (add_local_application_state_fails E RPC_READY
                  (cql_ready true)).

(** The calls of [do_stop_server] on a running server, in closed form. *)
Definition stop_events (E : env) : list event :=
  (ready_event false
     (add_local_application_state_fails E RPC_READY (cql_ready false))
   :: EvUnsubscribe
   :: (if succeeded (unsubscribe_fails E) then [EvShutdown] else [])
   ++ [EvServerStop])%list.


(** The state in which an entry point runs its body: a unit taken. *)
Definition acquired (s : state) : state :=
  with_this (set_ops_sem (take_unit (_ops_sem (this s)))) s.

(** The calls of the first phase and what it leaves alone. *)
Definition setup_only (s s' : state) (t : list event) : Prop :=
  Forall (λ e, is_setup e = true) t
  ∧ _server (this s') = _server (this s)
  ∧ rpc_ready s' = rpc_ready s.

End CqlTransport.

(** ** Example inputs *)

Module Examples.
Import CqlTransport.

Local Open Scope string_scope.
Local Open Scope Z_scope.

(** A node that serves CQL on the default ports, with its work directory
    under [/var/lib/scylla]. *)
Definition example_config : config :=
  {| rpc_interface_prefer_ipv6 := false;
     enable_ipv6_dns_lookup := false;
     client_encryption_options := ∅;
     rpc_keepalive := true;
     rpc_address := "localhost";
     native_transport_port := {| is_set := false; value := 9042 |};
     native_transport_port_ssl := {| is_set := false; value := 9142 |};
     native_shard_aware_transport_port :=
       {| is_set := false; value := 19042 |};
     native_shard_aware_transport_port_ssl :=
       {| is_set := false; value := 19142 |};
     partitioner := "org.apache.cassandra.dht.Murmur3Partitioner";
     murmur3_partitioner_ignore_msb_bits := 12;
     enable_shard_aware_drivers := true;
     maintenance_socket := "workdir";
     work_directory := "/var/lib/scylla" |}.

(** A world in which every collaborator does as asked. *)
Definition all_succeed : env :=
  {| create_smp_service_group_fails := None;
     resolve := λ _ _ _, inr 2130706433%N;
     is_true := λ v, bool_decide (v = "true");
     configure_tls_creds_builder_fails := None;
     total_memory := 1073741824;
     server_start_fails := None;
     subscribe_fails := None;
     listen_fails := λ _, None;
     add_local_application_state_fails := λ _ _, None;
     unsubscribe_fails := None;
     shutdown_fails := None;
     stop_ready := false |}.

Definition example_socket_path : string := "/var/lib/scylla/cql.m".

(** A stop has been requested of a running TCP server and has not
    completed yet. *)
Definition stopping : system :=
  run [call_start_server; complete all_succeed; call_request_stop_server]
    (initially example_config false ∅).

(** A start has been requested and has not completed yet. *)
Definition starting : system :=
  run [call_start_server] (initially example_config false ∅).


(** A fresh maintenance-socket controller that finds a regular file
    where its socket should be. *)
Definition blocked_by_regular_file : state :=
  now (initially example_config true
         {[ example_socket_path := object S_IFREG None ]}).

(** A fresh controller for the TCP listeners. *)
Definition fresh_tcp : state := now (initially example_config false ∅).


End Examples.

(** ** Closed forms of the listener set-up

    What [do_start_server] works out, written without the index
    bookkeeping and the sequencing of the source, to be compared with
    the embedding of the source above; and the relations between the
    state before and after a call that the lifecycle facts use. *)

Module Vocabulary.
Import CqlTransport.

Local Open Scope string_scope.
Local Open Scope Z_scope.

(** The background gate is as it was. *)
Definition bg_stops_kept (s s' : state) (t : list event) : Prop :=
  _bg_stops (this s') = _bg_stops (this s).

(** [client_encryption_options.enabled], as [do_start_server] reads it. *)
Definition encryption_enabled (E : env) (cfg : config) : bool :=
  is_true E (default "false" (client_encryption_options cfg !! "enabled")).

(** The plain port of a pair is served: it was set, or its SSL port was
    not. *)
Definition serves_plain_port (plain ssl : named_value Z) : bool :=
  is_set plain || negb (is_set ssl).

(** The SSL port of a pair gets a listener of its own: it was set, and
    the plain port was not set or was set to another value. *)
Definition serves_ssl_port (plain ssl : named_value Z) : bool :=
  is_set ssl && (negb (is_set plain) || negb (value ssl =? value plain)).

(** The listeners of one pair of ports on [ip], given the credentials
    when encryption is enabled. *)
Definition plain_listener (ip : inet_address) (plain ssl : named_value Z)
    (shard_aware : bool) (cr : option credentials_builder)
    : list listen_cfg :=
  if serves_plain_port plain ssl
  then [{| addr := inet_socket ip (value plain);
           is_shard_aware := shard_aware;
           cred := if serves_ssl_port plain ssl then None else cr |}]
  else [].

Definition ssl_listener (ip : inet_address) (plain ssl : named_value Z)
    (shard_aware : bool) (cr : option credentials_builder)
    : list listen_cfg :=
  match cr with
  | Some cr =>
      if serves_ssl_port plain ssl
      then [{| addr := inet_socket ip (value ssl);
               is_shard_aware := shard_aware; cred := Some cr |}]
      else []
  | None => []
  end.

(** The TCP listeners in closed form. *)
Definition tcp_listeners (E : env) (cfg : config) (ip : inet_address)
    : list listen_cfg :=
  let cr :=
    if encryption_enabled E cfg
    then Some {| creds_options := client_encryption_options cfg |}
    else None in
  (plain_listener ip (native_transport_port cfg)
     (native_transport_port_ssl cfg) false cr
   ++ plain_listener ip (native_shard_aware_transport_port cfg)
        (native_shard_aware_transport_port_ssl cfg) true cr
   ++ ssl_listener ip (native_transport_port cfg)
        (native_transport_port_ssl cfg) false cr
   ++ ssl_listener ip (native_shard_aware_transport_port cfg)
        (native_shard_aware_transport_port_ssl cfg) true cr)%list.

(** The checks of the maintenance socket path, in the order they are
    made, with what they find wrong. *)
Inductive socket_check : Type :=
| path_too_long
| not_a_socket (st_mode : file_type)
| stat_error (e : errno)
| unlink_error_of (e : errno).

(** The message of the [runtime_error] of a failed check. *)
Definition socket_check_error (path : string) (c : socket_check) : exn :=
  runtime_error
    match c with
    | path_too_long =>
        "Maintenance socket path is too long: " +:+ path
        +:+ ". Change it to string shorter than 108 chars."
    | not_a_socket _ =>
        "Under maintenance socket path (" +:+ path
        +:+ ") there is something else."
    | stat_error e => "Failed to stat " +:+ path +:+ ": " +:+ strerror e
    | unlink_error_of e =>
        "Failed to unlink " +:+ path +:+ ": " +:+ strerror e
    end.

(** The system calls made up to and including a failed check. *)
Definition socket_check_calls (files : gmap string fs_entry) (path : string)
    (c : socket_check) : list event :=
  match c with
  | path_too_long => []
  | not_a_socket _ | stat_error _ => [EvStat path (stat_of files path)]
  | unlink_error_of e =>
      [EvStat path (stat_of files path); EvUnlink path (Some e)]
  end.

(** The first check that fails, if any. *)
Definition failed_socket_check (files : gmap string fs_entry)
    (path : string) : option socket_check :=
  if 107 <? Z.of_nat (String.length path) then Some path_too_long
  else
    match stat_of files path with
    | stat_ok S_IFSOCK | stat_failed ENOENT =>
        match (unlink_of files path).1 with
        | None | Some ENOENT => None
        | Some e => Some (unlink_error_of e)
        end
    | stat_ok st_mode => Some (not_a_socket st_mode)
    | stat_failed e => Some (stat_error e)
    end.

(** [::stat] finds a unix-domain socket at the path, or nothing: the
    path is free, or holds a symbolic link that leads to nothing. *)
Definition socket_or_nothing (files : gmap string fs_entry) (path : string)
    : Prop :=
  stat_of files path = stat_ok S_IFSOCK
  ∨ stat_of files path = stat_failed ENOENT.

(** What a computation leaves of the file system. *)
Definition fs_kept (s s' : state) (t : list event) : Prop := fs s' = fs s.

(** The entry at [p] is as before, or a listener bound it. *)
Definition bound_or_kept (configs : list listen_cfg) (p : string)
    (s s' : state) : Prop :=
  fs s' !! p = fs s !! p
  ∨ (fs s' !! p = Some (object S_IFSOCK None)
     ∧ unix_domain_addr p ∈ addr <$> configs).

End Vocabulary.

(** ** Further example inputs *)

Module Scenarios.
Import CqlTransport.

Local Open Scope string_scope.
Local Open Scope Z_scope.

(** The TCP server of the example is running. *)
Definition running_tcp : state :=
  (start_server Examples.all_succeed Examples.fresh_tcp).1.2.

(** A fresh controller for the maintenance socket, nothing at its path. *)
Definition fresh_maintenance : state :=
  now (initially Examples.example_config true ∅).

(** A world in which no address can be bound. *)
Definition listen_refused : env :=
  {| create_smp_service_group_fails := None;
     resolve := λ _ _ _, inr 2130706433%N;
     is_true := λ v, bool_decide (v = "true");
     configure_tls_creds_builder_fails := None;
     total_memory := 1073741824;
     server_start_fails := None;
     subscribe_fails := None;
     listen_fails := λ _, Some (external_error "Address already in use");
     add_local_application_state_fails := λ _ _, None;
     unsubscribe_fails := None;
     shutdown_fails := None;
     stop_ready := false |}.

(** A fresh controller for the maintenance socket that finds a
    symbolic link to nothing where its socket should be. *)
Definition behind_dangling_link : state :=
  now (initially Examples.example_config true
         {[ Examples.example_socket_path
            := symlink "/run/scylla/cql.m" None ]}).



(** Only the SSL ports are set, and client encryption is disabled. *)
Definition ssl_only_config : config :=
  {| rpc_interface_prefer_ipv6 := false;
     enable_ipv6_dns_lookup := false;
     client_encryption_options := ∅;
     rpc_keepalive := true;
     rpc_address := "localhost";
     native_transport_port := {| is_set := false; value := 9042 |};
     native_transport_port_ssl := {| is_set := true; value := 9142 |};
     native_shard_aware_transport_port :=
       {| is_set := false; value := 19042 |};
     native_shard_aware_transport_port_ssl :=
       {| is_set := true; value := 19142 |};
     partitioner := "org.apache.cassandra.dht.Murmur3Partitioner";
     murmur3_partitioner_ignore_msb_bits := 12;
     enable_shard_aware_drivers := true;
     maintenance_socket := "workdir";
     work_directory := "/var/lib/scylla" |}.

Definition fresh_ssl_only : state := now (initially ssl_only_config false ∅).

(** The TCP server of the example is running and no call is in
    progress. *)
Definition serving : system :=
  run [call_start_server; complete Examples.all_succeed]
    (initially Examples.example_config false ∅).

End Scenarios.



(** * Properties of the topology data model *)

Module TopologyFacts.
Import Service Coordinator.

(** ** Enumerations *)

Lemma node_state_value_inj : Inj (=) (=) node_state_value.
Proof. by intros [] [] ?. Qed.

Lemma topology_request_value_inj : Inj (=) (=) topology_request_value.
Proof. by intros [] [] ?. Qed.

Lemma transition_state_value_inj : Inj (=) (=) transition_state_value.
Proof. by intros [] [] ?. Qed.

Lemma node_state_value_range s : in_uint16 (node_state_value s).
Proof. unfold in_uint16, uint16_max. destruct s; simpl; lia. Qed.

Lemma transition_state_value_range s : in_uint16 (transition_state_value s).
Proof. unfold in_uint16, uint16_max. destruct s; simpl; lia. Qed.

Lemma transition_state_of_value_Some v s :
  transition_state_of_value v = Some s ↔ transition_state_value s = v.
Proof.
  split.
  - destruct v as [|p|p]; try discriminate;
    repeat match goal with
           | q : positive |- _ => destruct q; try discriminate
           end; intros [= <-]; reflexivity.
  - intros <-. by destruct s.
Qed.


(** C3: the optional transition state of the topology is either absent or
    one of exactly seven enumerators, [join_group0],
    [commit_cdc_generation], [tablet_draining], [write_both_read_old],
    [write_both_read_new], [tablet_migration], [left_token_ring]; they
    are pairwise distinct and declared in this order, that is, their
    underlying values are 0 to 6, and no other value names a transition
    state. *)
Theorem transition_state_exactly_seven :
  enum transition_state =
    [join_group0; commit_cdc_generation; tablet_draining;
     write_both_read_old; write_both_read_new; tablet_migration;
     left_token_ring]
  ∧ card transition_state = 7%nat
  ∧ NoDup (enum transition_state)
  ∧ (∀ s : transition_state, s ∈ enum transition_state)
  ∧ transition_state_value <$> enum transition_state = [0; 1; 2; 3; 4; 5; 6]
  ∧ (∀ v s, transition_state_of_value v = Some s
            ↔ transition_state_value s = v)
  ∧ (∀ v, is_Some (transition_state_of_value v) ↔ 0 <= v <= 6)
  ∧ (∀ t : topology,
       tstate t = None
       ∨ ∃ s, tstate t = Some s ∧ s ∈ enum transition_state).
Proof.
  split_and!; try reflexivity.
  - apply NoDup_enum.
  - apply elem_of_enum.
  - apply transition_state_of_value_Some.
  - intros v. split.
    + intros [s Hs]. apply transition_state_of_value_Some in Hs as <-.
      destruct s; simpl; lia.
    + intros Hv.
      assert (v = 0 ∨ v = 1 ∨ v = 2 ∨ v = 3 ∨ v = 4 ∨ v = 5 ∨ v = 6)
        as Hcases by lia.
      destruct_or!; subst v; eexists; reflexivity.
  - intros t. destruct (tstate t) as [s|]; [right|by left].
    exists s. split; [done|apply elem_of_enum].
Qed.




(** C9: a default-constructed [raft_topology_cmd_result] has status
    [fail]; a result whose status is [success] is therefore not the
    default one; the status is one of exactly the two enumerators [fail]
    and [success], which differ; the commands the result answers are
    [barrier], [barrier_and_drain], [stream_ranges], [wait_for_ip]. *)
Theorem cmd_result_defaults_to_fail :
  status raft_topology_cmd_result_default = fail
  ∧ status raft_topology_cmd_result_default ≠ success
  ∧ (∀ r, status r = success → r ≠ raft_topology_cmd_result_default)
  ∧ enum command_status = [fail; success]
  ∧ (∀ s : command_status, s = fail ∨ s = success)
  ∧ command_status_value fail ≠ command_status_value success
  ∧ enum command = [barrier; barrier_and_drain; stream_ranges; wait_for_ip]
  ∧ (∀ c : raft_topology_cmd, cmd c ∈ enum command).
Proof.
  split_and!; try done.
  - intros r Hr ->. discriminate.
  - intros []; auto.
  - intros c. apply elem_of_enum.
Qed.

(** ** The default topology *)

(** C8: a freshly constructed topology has [version] and [fence_version]
    both equal to the initial version 1, hence [fence_version <=
    version]; it has no transition state, its four node collections and
    its two request maps are empty, it has no global request, and
    [tablet_balancing_enabled] is true. *)
Theorem fresh_topology_satisfies_fencing_invariant :
  initial_version = 1
  ∧ version topology_default = initial_version
  ∧ fence_version topology_default = initial_version
  ∧ fence_version topology_default <= version topology_default
  ∧ in_int64 (version topology_default)
  ∧ tstate topology_default = None
  ∧ normal_nodes topology_default = ∅
  ∧ new_nodes topology_default = ∅
  ∧ transition_nodes topology_default = ∅
  ∧ left_nodes topology_default = ∅
  ∧ requests topology_default = ∅
  ∧ req_param topology_default = ∅
  ∧ global_request topology_default = None
  ∧ tablet_balancing_enabled topology_default = true.
Proof.
  split_and!; try reflexivity.
  by vm_compute.
Qed.

(** ** The fencing token *)

Lemma to_int64_range z : in_int64 (to_int64 z).
Proof.
  unfold to_int64, in_int64, int64_min, int64_max, two_to_64.
  pose proof (Z.mod_pos_bound (z - -9223372036854775808)
                18446744073709551616).
  lia.
Qed.

Lemma to_int64_id z : in_int64 z ↔ to_int64 z = z.
Proof.
  split.
  - unfold to_int64, in_int64, int64_min, int64_max, two_to_64.
    intros Hz. rewrite Z.mod_small; lia.
  - intros <-. apply to_int64_range.
Qed.

(** C2, as the code has it: the token holds one [topology::version_t]
    and nothing else, and that version is a signed 64-bit integer
    ([int64_t]): whatever 64 bits arrive,
    the version held lies in the [int64_t] range, and exactly the values
    of that range are held unchanged.  The token converts to [false]
    (the caller opted out of fencing) if and only if its version is 0,
    and a default-constructed token has version 0, hence opts out. *)
Theorem fencing_token_opt_out :
  (∀ t1 t2, topology_version t1 = topology_version t2 → t1 = t2)
  ∧ (∀ w, fencing_token_ok (fencing_token_of_wire w))
  ∧ (∀ t, fencing_token_ok t ↔ fencing_token_of_wire (topology_version t) = t)
  ∧ (∀ t, fencing_token_bool t = false ↔ topology_version t = 0)
  ∧ (∀ t, fencing_token_bool t = true ↔ topology_version t ≠ 0)
  ∧ topology_version fencing_token_default = 0
  ∧ fencing_token_bool fencing_token_default = false
  ∧ fencing_token_ok fencing_token_default.
Proof.
  split_and!; try reflexivity.
  - intros [v1] [v2]. simpl. by intros ->.
  - intros w. apply to_int64_range.
  - intros [v]. unfold fencing_token_ok, fencing_token_of_wire. simpl.
    rewrite to_int64_id. split; [by intros ->|by intros [= ->]].
  - intros [v]. unfold fencing_token_bool. simpl.
    rewrite negb_false_iff. apply Z.eqb_eq.
  - intros [v]. unfold fencing_token_bool. simpl.
    rewrite negb_true_iff. apply Z.eqb_neq.
  - by vm_compute.
Qed.

(** C2, as stated, fails: the version of a fencing token is not an
    unsigned 64-bit value.  The token that holds -1 is a value of the
    type, it is what the 64 one-bits of the largest unsigned value are
    read as, it is not in the unsigned range, and it counts as present. *)
Lemma fencing_token_version_is_signed :
  fencing_token_ok {| topology_version := -1 |}
  ∧ fencing_token_of_wire uint64_max = {| topology_version := -1 |}
  ∧ ¬ in_uint64 (topology_version {| topology_version := -1 |})
  ∧ fencing_token_bool {| topology_version := -1 |} = true
  ∧ ¬ (∀ t, fencing_token_ok t → in_uint64 (topology_version t)).
Proof.
  assert (fencing_token_ok {| topology_version := -1 |}) as Hok
    by by vm_compute.
  assert (¬ in_uint64 (-1)) as Hno by (unfold in_uint64; lia).
  split_and!; try done.
  intros Hall. apply Hno, (Hall {| topology_version := -1 |}), Hok.
Qed.

(** ** Request parameters *)

Lemma holds_param_of_param_request k p :
  holds_param_of k p = true ↔ param_request p = k.
Proof. destruct k, p; simpl; split; congruence. Qed.





(** ** Priority of the pending requests *)

Lemma min_id_spec ids :
  match min_id ids with
  | None => ids = []
  | Some i => i ∈ ids ∧ ∀ j, j ∈ ids → (i ≤ j)%N
  end.
Proof.
  induction ids as [|a ids IH]; [done|].
  simpl. destruct (min_id ids) as [m|]; simpl.
  - destruct IH as [Hm Hle]. split.
    + destruct (N.min_spec a m) as [[_ ->]|[_ ->]];
        [apply list_elem_of_here|by apply list_elem_of_further].
    + intros j [->|Hj]%elem_of_cons; [lia|].
      specialize (Hle j Hj). lia.
  - subst ids. split; [apply list_elem_of_here|].
    intros j [->|Hj]%elem_of_cons; [lia|]. by apply elem_of_nil in Hj.
Qed.

Lemma elem_of_pending_ids k (reqs : gmap N topology_request) i :
  i ∈ pending_ids k reqs ↔ reqs !! i = Some k.
Proof.
  unfold pending_ids. rewrite list_elem_of_fmap. split.
  - intros [[i' k'] [-> [Hk Hin]%list_elem_of_filter]].
    simpl in *. subst k'. by apply elem_of_map_to_list.
  - intros Hi. exists (i, k). split; [done|].
    apply list_elem_of_filter. split; [done|]. by apply elem_of_map_to_list.
Qed.

Lemma pending_node_spec k (reqs : gmap N topology_request) :
  match pending_node k reqs with
  | None => ∀ i, reqs !! i ≠ Some k
  | Some i => reqs !! i = Some k ∧ ∀ j, reqs !! j = Some k → (i ≤ j)%N
  end.
Proof.
  unfold pending_node. pose proof (min_id_spec (pending_ids k reqs)) as H.
  destruct (min_id (pending_ids k reqs)) as [i|].
  - destruct H as [Hi Hle]. split; [by apply elem_of_pending_ids|].
    intros j Hj. by apply Hle, elem_of_pending_ids.
  - intros i Hi%elem_of_pending_ids. rewrite H in Hi.
    by apply elem_of_nil in Hi.
Qed.

Ltac pending_cases reqs :=
  pose proof (pending_node_spec replace reqs);
  pose proof (pending_node_spec join reqs);
  pose proof (pending_node_spec remove reqs);
  pose proof (pending_node_spec leave reqs);
  pose proof (pending_node_spec rebuild reqs);
  unfold select_request in *;
  destruct (pending_node replace reqs);
  [|destruct (pending_node join reqs);
    [|destruct (pending_node remove reqs);
      [|destruct (pending_node leave reqs);
        [|destruct (pending_node rebuild reqs)]]]].

(** What is selected is pending, no pending request is of a kind declared
    earlier, and among the nodes with a request of the selected kind the
    one with the smallest id is taken. *)
Lemma select_request_least (reqs : gmap N topology_request) g i k :
  select_request reqs g = Some (node_request i k) →
  reqs !! i = Some k
  ∧ ∀ j k', reqs !! j = Some k' →
      topology_request_value k <= topology_request_value k'
      ∧ (k' = k → (i ≤ j)%N).
Proof.
  intros Hsel. pending_cases reqs;
    try (destruct g; discriminate Hsel);
    injection Hsel as <- <-; destruct_and!;
    (split; [done|]); intros j k' Hj;
    (split; [destruct k'; simpl; first [lia | by exfalso; naive_solver]
            |intros ->; auto]).
Qed.

(** While a per-node request is pending, a per-node request is selected. *)
Lemma select_request_pending (reqs : gmap N topology_request) g j k :
  reqs !! j = Some k →
  ∃ i k', select_request reqs g = Some (node_request i k').
Proof.
  intros Hj. pending_cases reqs; eauto.
  destruct k; naive_solver.
Qed.

(** The only request of the earliest declared pending kind is selected. *)
Lemma select_request_unique (reqs : gmap N topology_request) g i k :
  reqs !! i = Some k →
  (∀ j k', reqs !! j = Some k' → j ≠ i →
     topology_request_value k < topology_request_value k') →
  select_request reqs g = Some (node_request i k).
Proof.
  intros Hi Hothers.
  destruct (select_request_pending reqs g i k Hi) as (i' & k' & Hsel).
  rewrite Hsel.
  destruct (select_request_least reqs g i' k' Hsel) as [Hi' Hleast].
  destruct (decide (i' = i)) as [->|Hne]; [congruence|].
  specialize (Hothers i' k' Hi' Hne).
  destruct (Hleast i k Hi) as [Hle _]. lia.
Qed.

(** Every request that is served was pending. *)
Lemma service_order_pending fuel (reqs : gmap N topology_request) i k :
  (i, k) ∈ service_order fuel reqs → reqs !! i = Some k.
Proof.
  revert reqs. induction fuel as [|fuel IH]; intros reqs; simpl.
  { by intros ?%elem_of_nil. }
  destruct (select_request reqs None) as [[i0 k0|g]|] eqn:Hsel;
    [|by intros ?%elem_of_nil..].
  intros [[= -> ->]|Hin]%elem_of_cons.
  - by destruct (select_request_least reqs None i0 k0 Hsel).
  - by apply IH, lookup_delete_Some in Hin as [_ ?].
Qed.

(** Requests are served in the declaration order of their kinds. *)
Lemma service_order_sorted fuel (reqs : gmap N topology_request) :
  StronglySorted
    (λ a b, topology_request_value a.2 <= topology_request_value b.2)
    (service_order fuel reqs).
Proof.
  revert reqs. induction fuel as [|fuel IH]; intros reqs; simpl.
  { constructor. }
  destruct (select_request reqs None) as [[i0 k0|g]|] eqn:Hsel;
    [|constructor..].
  constructor; [apply IH|].
  apply list.Forall_forall. intros [j k'] Hin. simpl.
  apply service_order_pending, lookup_delete_Some in Hin as [_ Hj].
  destruct (select_request_least reqs None i0 k0 Hsel) as [_ Hleast].
  by destruct (Hleast j k' Hj).
Qed.

(** With enough fuel every pending request is served. *)
Lemma service_order_length fuel (reqs : gmap N topology_request) :
  (size reqs ≤ fuel)%nat → length (service_order fuel reqs) = size reqs.
Proof.
  revert reqs. induction fuel as [|fuel IH]; intros reqs Hsize; simpl.
  { lia. }
  destruct (map_choose_or_empty reqs) as [(j & k & Hj)| ->].
  - destruct (select_request_pending reqs None j k Hj) as (i0 & k0 & Hsel).
    destruct (select_request_least reqs None i0 k0 Hsel) as [Hi0 _].
    rewrite Hsel. simpl. rewrite IH.
    + rewrite map_size_delete, Hi0. simpl.
      assert (size reqs ≠ 0%nat) by (apply map_size_non_empty_iff; by intros ->).
      lia.
    + rewrite map_size_delete, Hi0. simpl. lia.
  - by rewrite map_size_empty.
Qed.

(** C1: the selection rule follows the declaration order of the request
    kinds, which is replace, join, remove, leave, rebuild (underlying
    values 0 to 4).  Whatever per-node requests are pending, the selected
    one is pending and no pending request has a kind declared earlier
    than the selected kind (so a replace goes before any join, a join
    before any remove, a remove before any leave, a leave before any
    rebuild); at equal kind the smallest node id goes first; a per-node
    request is selected whenever one is pending.  Serving the pending
    requests one after the other therefore serves exactly the pending
    requests, all of them, in the declaration order of their kinds; with
    join A, replace B, rebuild C, leave D pending, the requests are
    served in the order B, A, D, C. *)
Theorem request_priority_is_declaration_order :
  enum topology_request = [replace; join; remove; leave; rebuild]
  ∧ topology_request_value <$> enum topology_request = [0; 1; 2; 3; 4]
  ∧ (∀ (reqs : gmap N topology_request) g i k,
       select_request reqs g = Some (node_request i k) →
       reqs !! i = Some k
       ∧ ∀ j k', reqs !! j = Some k' →
           topology_request_value k <= topology_request_value k'
           ∧ (k' = k → (i ≤ j)%N))
  ∧ (∀ (reqs : gmap N topology_request) g j k,
       reqs !! j = Some k →
       ∃ i k', select_request reqs g = Some (node_request i k')
               ∧ topology_request_value k' <= topology_request_value k)
  ∧ (∀ (reqs : gmap N topology_request) g,
       (∀ j, reqs !! j = None) → select_request reqs g = global <$> g)
  ∧ (∀ fuel (reqs : gmap N topology_request),
       StronglySorted
         (λ a b, topology_request_value a.2 <= topology_request_value b.2)
         (service_order fuel reqs))
  ∧ (∀ fuel (reqs : gmap N topology_request) i k,
       (i, k) ∈ service_order fuel reqs → reqs !! i = Some k)
  ∧ (∀ fuel (reqs : gmap N topology_request),
       (size reqs ≤ fuel)%nat →
       length (service_order fuel reqs) = size reqs)
  ∧ (∀ A B C D : N,
       NoDup [A; B; C; D] →
       service_order 4
         (<[A := join]> (<[B := replace]> (<[C := rebuild]>
            (<[D := leave]> ∅))))
       = [(B, replace); (A, join); (D, leave); (C, rebuild)]).
Proof.
  split_and!; try reflexivity.
  - apply select_request_least.
  - intros reqs g j k Hj.
    destruct (select_request_pending reqs g j k Hj) as (i & k' & Hsel).
    exists i, k'. split; [done|].
    destruct (select_request_least reqs g i k' Hsel) as [_ Hleast].
    by destruct (Hleast j k Hj).
  - intros reqs g Hempty. pending_cases reqs; destruct_and?;
      first [congruence | done].
  - apply service_order_sorted.
  - apply service_order_pending.
  - apply service_order_length.
  - intros A B C D Hnd.
    apply NoDup_cons in Hnd as [HA Hnd]. apply NoDup_cons in Hnd as [HB Hnd].
    apply NoDup_cons in Hnd as [HC _].
    assert (A ≠ B ∧ A ≠ C ∧ A ≠ D ∧ B ≠ C ∧ B ≠ D ∧ C ≠ D)
      as (HAB & HAC & HAD & HBC & HBD & HCD) by set_solver.
    clear HA HB HC.
    unfold service_order.
    rewrite (select_request_unique _ None B replace); cycle 1.
    { by simplify_map_eq. }
    { intros j k' Hj Hne.
      repeat (apply lookup_insert_Some in Hj as [[<- <-]|[? Hj]];
              [simpl; first [lia | done]|]).
      by rewrite lookup_empty in Hj. }
    rewrite (select_request_unique _ None A join); cycle 1.
    { by simplify_map_eq. }
    { intros j k' Hj Hne. apply lookup_delete_Some in Hj as [? Hj].
      repeat (apply lookup_insert_Some in Hj as [[<- <-]|[? Hj]];
              [simpl; first [lia | done]|]).
      by rewrite lookup_empty in Hj. }
    rewrite (select_request_unique _ None D leave); cycle 1.
    { by simplify_map_eq. }
    { intros j k' Hj Hne. do 2 apply lookup_delete_Some in Hj as [? Hj].
      repeat (apply lookup_insert_Some in Hj as [[<- <-]|[? Hj]];
              [simpl; first [lia | done]|]).
      by rewrite lookup_empty in Hj. }
    rewrite (select_request_unique _ None C rebuild); cycle 1.
    { by simplify_map_eq. }
    { intros j k' Hj Hne. do 3 apply lookup_delete_Some in Hj as [? Hj].
      repeat (apply lookup_insert_Some in Hj as [[<- <-]|[? Hj]];
              [simpl; first [lia | done]|]).
      by rewrite lookup_empty in Hj. }
    reflexivity.
Qed.

(** The scenario of C1 with A = 1, B = 2, C = 3, D = 4. *)
Lemma request_priority_witness :
  service_order 4
    (<[1%N := join]> (<[2%N := replace]> (<[3%N := rebuild]>
       (<[4%N := leave]> ∅))))
  = [(2%N, replace); (1%N, join); (4%N, leave); (3%N, rebuild)].
Proof.
  pose proof request_priority_is_declaration_order
    as (_ & _ & _ & _ & _ & _ & _ & _ & H).
  apply (H 1%N 2%N 3%N 4%N).
  apply (bool_decide_unpack _). vm_compute. exact I.
Defined.


End TopologyFacts.

(** * Properties of the CQL server controller *)

Module ControllerFacts.
Import CqlTransport.

Local Open Scope string_scope.
Local Open Scope Z_scope.

(** ** Records *)

Lemma state_eta s :
  {| this := this s; fs := fs s; rpc_ready := rpc_ready s |} = s.
Proof. by destruct s. Qed.

Lemma set_ops_sem_same c : set_ops_sem (_ops_sem c) c = c.
Proof. by destruct c. Qed.

Lemma with_this_same s : with_this (set_ops_sem (_ops_sem (this s))) s = s.
Proof. unfold with_this. by rewrite set_ops_sem_same, state_eta. Qed.

(** ** Relations that every step of a computation maintains

    A relation between the state before, the state after and the calls
    made in between that holds of doing nothing and composes along
    sequencing is maintained by a computation once it is maintained by
    the primitive steps the computation is made of. *)

Section Maintained.
Variable I : state → state → list event → Prop.
Hypothesis I_refl : ∀ s, I s s [].
Hypothesis I_trans : ∀ s1 s2 s3 t1 t2,
  I s1 s2 t1 → I s2 s3 t2 → I s1 s3 (t1 ++ t2)%list.

Lemma maintains_ret {A} (a : A) : maintains I (mret a).
Proof. intros s. apply I_refl. Qed.

Lemma maintains_throw {A} e : maintains I (@throw A e).
Proof. intros s. apply I_refl. Qed.

Lemma maintains_gets {A} (f : state → A) : maintains I (gets f).
Proof. intros s. apply I_refl. Qed.

Lemma maintains_external f : maintains I (external f).
Proof. destruct f; [apply maintains_throw|apply maintains_ret]. Qed.

Lemma maintains_bind {A B} (m : M A) (k : A → M B) :
  maintains I m → (∀ a, maintains I (k a)) → maintains I (m ≫= k).
Proof.
  intros Hm Hk s. specialize (Hm s). unfold mbind, M_bind.
  destruct (m s) as [[[a|e] s1] t1]; simpl in *; [|done].
  specialize (Hk a s1). destruct (k a s1) as [[r s2] t2]; simpl in *.
  by eapply I_trans.
Qed.

Lemma maintains_try_catch (m : M unit) :
  maintains I m → maintains I (try_catch m).
Proof.
  intros Hm s. specialize (Hm s). unfold try_catch.
  by destruct (m s) as [[[a|e] s1] t1].
Qed.

Lemma maintains_on_error {A} (cleanup : M unit) (m : M A) :
  maintains I cleanup → maintains I m → maintains I (on_error cleanup m).
Proof.
  intros Hc Hm s. specialize (Hm s). unfold on_error.
  destruct (m s) as [[[a|e] s1] t1]; simpl in *; [done|].
  specialize (Hc s1). destruct (cleanup s1) as [[r s2] t2]; simpl in *.
  by eapply I_trans.
Qed.

Lemma maintains_finally {A} (m : M A) (f : M unit) :
  maintains I m → maintains I f → maintains I (finally m f).
Proof.
  intros Hm Hf s. specialize (Hm s). unfold finally.
  destruct (m s) as [[r s1] t1]; simpl in *.
  specialize (Hf s1). destruct (f s1) as [[r' s2] t2]; simpl in *.
  by eapply I_trans.
Qed.

Lemma maintains_parallel_for_each {A} (l : list A) (f : A → M unit) :
  (∀ x, maintains I (f x)) → maintains I (parallel_for_each l f).
Proof.
  intros Hf. induction l as [|x l IH]; simpl; [apply maintains_ret|].
  apply maintains_bind; [by apply maintains_try_catch|intros ex].
  apply maintains_bind; [by apply maintains_try_catch|intros ex'].
  destruct ex, ex'; first [apply maintains_throw | apply maintains_ret].
Qed.
Lemma maintains_emit e : (∀ s, I s s [e]) → maintains I (emit e).
Proof. intros He s. apply He. Qed.

Lemma maintains_modify f : (∀ s, I s (f s) []) → maintains I (modify f).
Proof. intros Hf s. apply Hf. Qed.
End Maintained.

(** Decomposes a computation into its primitive steps; what is left are
    the conditions on [emit] and [modify]. *)
Ltac maintained Hrefl Htrans :=
  repeat first
    [ apply (maintains_ret _ Hrefl)
    | apply (maintains_throw _ Hrefl)
    | apply (maintains_gets _ Hrefl)
    | apply (maintains_external _ Hrefl)
    | apply (maintains_bind _ Htrans); [|intros ?]
    | apply maintains_try_catch
    | apply (maintains_on_error _ Htrans)
    | apply (maintains_finally _ Htrans)
    | apply (maintains_parallel_for_each _ Hrefl Htrans); intros ?
    | apply maintains_emit; intros ?
    | apply maintains_modify; intros ?
    | match goal with
      | |- maintains _ (if ?b then _ else _) => destruct b
      | |- maintains _ (match ?x with _ => _ end) => destruct x
      end ].

(** ** The lifecycle members are written by the entry points only *)

Lemma lifecycle_kept_refl s : lifecycle_kept s s [].
Proof. by repeat split. Qed.

Lemma lifecycle_kept_trans s1 s2 s3 t1 t2 :
  lifecycle_kept s1 s2 t1 → lifecycle_kept s2 s3 t2 →
  lifecycle_kept s1 s3 (t1 ++ t2)%list.
Proof. unfold lifecycle_kept. intros (?&?&?&?) (?&?&?&?). split_and!; congruence. Qed.

Ltac lifecycle_kept :=
  cbv zeta;
  maintained lifecycle_kept_refl lifecycle_kept_trans;
  by repeat split.

Lemma listen_keeps_lifecycle E keepalive c :
  maintains lifecycle_kept (listen E keepalive c).
Proof. unfold listen. lifecycle_kept. Qed.

Lemma tcp_configs_keeps_lifecycle E cfg fam preferred :
  maintains lifecycle_kept (tcp_configs E cfg fam preferred).
Proof.
  unfold tcp_configs, resolve_address, push_listen_address. lifecycle_kept.
Qed.

Lemma maintenance_configs_keeps_lifecycle cfg :
  maintains lifecycle_kept (maintenance_configs cfg).
Proof.
  unfold maintenance_configs, stat, unlink, push_listen_address.
  lifecycle_kept.
Qed.

Lemma do_start_server_keeps_lifecycle E :
  maintains lifecycle_kept (do_start_server E).
Proof.
  unfold do_start_server, subscribe_server, set_cql_ready,
    add_local_application_state.
  cbv zeta.
  maintained lifecycle_kept_refl lifecycle_kept_trans;
    first [ apply tcp_configs_keeps_lifecycle
          | apply maintenance_configs_keeps_lifecycle
          | apply listen_keeps_lifecycle
          | by repeat split ].
Qed.

Lemma do_stop_server_keeps_lifecycle E :
  maintains lifecycle_kept (do_stop_server E).
Proof.
  unfold do_stop_server, set_cql_ready, add_local_application_state,
    unsubscribe_server, shutdown, hold_bg_stops.
  lifecycle_kept.
Qed.

(** ** The operations semaphore *)

Lemma may_proceed_true sem :
  may_proceed sem 1 = true ↔ 1 <= count sem ∧ waiters sem = 0%nat.
Proof.
  unfold may_proceed, has_available_units.
  rewrite !andb_true_iff, bool_decide_eq_true, !Z.leb_le. lia.
Qed.

Lemma may_proceed_false sem :
  count sem <= 0 → may_proceed sem 1 = false.
Proof.
  intros H. apply not_true_is_false. rewrite may_proceed_true. lia.
Qed.

Lemma try_wait_ops_sem_run s :
  try_wait_ops_sem s =
    if may_proceed (_ops_sem (this s)) 1
    then (returned true,
          with_this (set_ops_sem (take_unit (_ops_sem (this s)))) s, [])
    else (returned false, s, []).
Proof.
  unfold try_wait_ops_sem, try_wait, mbind, M_bind, gets, modify. simpl.
  destruct (may_proceed (_ops_sem (this s)) 1); simpl; [done|].
  by rewrite (with_this_same s).
Qed.

Lemma finally_signal_lifecycle {A} (m : M A) s :
  maintains lifecycle_kept m →
  let s' := (finally m signal_ops_sem s).1.2 in
  _ops_sem (this s') = (signal (_ops_sem (this s))).2
  ∧ _stopped (this s') = _stopped (this s).
Proof.
  intros Hm. specialize (Hm s). unfold finally, signal_ops_sem, modify.
  destruct (m s) as [[r s1] t1]; simpl in *.
  destruct Hm as (-> & -> & _). done.
Qed.

Lemma invariant_step a y :
  lifecycle_invariant y → lifecycle_invariant (step a y).
Proof.
  intros Hy. destruct a as [| | |E|files|]; unfold step.
  - rewrite try_wait_ops_sem_run.
    destruct (may_proceed _ 1) eqn:Hp; [|done].
    apply may_proceed_true in Hp as [Hc Hw].
    unfold lifecycle_invariant in *. simpl.
    destruct (in_flight y) as [[]|]; [lia..|].
    destruct (_stopped (this (now y))); [lia|].
    destruct Hy as (? & ? & ?). simpl. split_and!; [lia|done..].
  - rewrite try_wait_ops_sem_run.
    destruct (may_proceed _ 1) eqn:Hp; [|done].
    apply may_proceed_true in Hp as [Hc Hw].
    unfold lifecycle_invariant in *. simpl.
    destruct (in_flight y) as [[]|]; [lia..|].
    destruct (_stopped (this (now y))); [lia|].
    destruct Hy as (? & ? & ?). simpl. split_and!; [lia|done..].
  - cbv zeta. destruct (_stopped (this (now y))) eqn:Hs; [done|].
    destruct (may_proceed _ 1) eqn:Hp.
    + unfold lifecycle_invariant. simpl. done.
    + destruct (broken _) eqn:Hb; [done|].
      unfold lifecycle_invariant in *. simpl. rewrite Hs in *.
      apply not_true_iff_false in Hp. rewrite may_proceed_true in Hp.
      destruct (in_flight y) as [[]|]; simpl; try lia; done.
  - destruct (in_flight y) as [op|] eqn:Hop; [|done].
    unfold lifecycle_invariant in Hy. rewrite Hop in Hy.
    destruct op; unfold completed.
    + destruct (finally_signal_lifecycle (do_start_server E) (now y)
                  (do_start_server_keeps_lifecycle E)) as [Hsem Hst].
      destruct Hy as (Hc & Hb & Hs).
      unfold signal in *. rewrite Hb in *. rewrite Hc in *. simpl in *.
      destruct (bool_decide (waiters _ ≠ 0%nat)) eqn:Hw; simpl in *.
      * unfold lifecycle_invariant. simpl. done.
      * unfold lifecycle_invariant. simpl. rewrite Hst, Hs, Hsem. simpl.
        apply bool_decide_eq_false in Hw. split_and!; [done| |done].
        destruct (waiters _); [done|]. by destruct Hw.
    + destruct (finally_signal_lifecycle (do_stop_server E) (now y)
                  (do_stop_server_keeps_lifecycle E)) as [Hsem Hst].
      destruct Hy as (Hc & Hb & Hs).
      unfold signal in *. rewrite Hb in *. rewrite Hc in *. simpl in *.
      destruct (bool_decide (waiters _ ≠ 0%nat)) eqn:Hw; simpl in *.
      * unfold lifecycle_invariant. simpl. done.
      * unfold lifecycle_invariant. simpl. rewrite Hst, Hs, Hsem. simpl.
        apply bool_decide_eq_false in Hw. split_and!; [done| |done].
        destruct (waiters _); [done|]. by destruct Hw.
    + pose proof (do_stop_server_keeps_lifecycle E (now y)) as (Hsem & Hst & _).
      destruct (do_stop_server E (now y)) as [[[[]|e] s1] t1];
        unfold lifecycle_invariant; simpl in *; rewrite Hst, Hsem;
        by destruct Hy as (?&?&?&->).
  - done.
  - done.
Qed.

Lemma run_snoc l a y : run (l ++ [a]) y = step a (run l y).
Proof. unfold run. by rewrite foldl_app. Qed.

Lemma invariant_initially cfg m files :
  lifecycle_invariant (initially cfg m files).
Proof. by unfold lifecycle_invariant. Qed.

Lemma invariant_reachable y : reachable y → lifecycle_invariant y.
Proof.
  intros (cfg & m & files & l & ->).
  induction l as [|a l IH] using rev_ind; [apply invariant_initially|].
  rewrite run_snoc. by apply invariant_step.
Qed.

(** While an operation is in flight no unit is available. *)
Lemma in_flight_holds_unit y :
  lifecycle_invariant y → is_Some (in_flight y) →
  may_proceed (_ops_sem (this (now y))) 1 = false.
Proof.
  unfold lifecycle_invariant. intros Hy [op Hop]. rewrite Hop in Hy.
  apply may_proceed_false. destruct op; lia.
Qed.

Lemma start_server_unavailable E s :
  may_proceed (_ops_sem (this s)) 1 = false →
  start_server E s
  = (thrown (runtime_error "CQL server is stopping, try again later"), s, []).
Proof.
  intros H. unfold start_server, mbind, M_bind.
  rewrite try_wait_ops_sem_run, H. reflexivity.
Qed.

Lemma request_stop_server_unavailable E s :
  may_proceed (_ops_sem (this s)) 1 = false →
  request_stop_server E s
  = (thrown (runtime_error "CQL server is starting, try again later"), s, []).
Proof.
  intros H. unfold request_stop_server, mbind, M_bind.
  rewrite try_wait_ops_sem_run, H. reflexivity.
Qed.

(** A call that finds a unit and completes before any other call arrives
    is the call as written. *)
Lemma start_server_call_then_complete E s :
  may_proceed (_ops_sem (this s)) 1 = true →
  broken (_ops_sem (this s)) = false →
  now (step (complete E)
         (step call_start_server {| now := s; in_flight := None |}))
  = (start_server E s).1.2.
Proof.
  intros Hp Hb.
  assert (step call_start_server {| now := s; in_flight := None |}
          = {| now := with_this
                        (set_ops_sem (take_unit (_ops_sem (this s)))) s;
               in_flight := Some op_start_server |}) as ->.
  { unfold step. cbn [now]. by rewrite try_wait_ops_sem_run, Hp. }
  unfold start_server, mbind, M_bind. rewrite try_wait_ops_sem_run, Hp.
  apply may_proceed_true in Hp as [_ Hw].
  unfold step, completed.
  cbn [negb now in_flight this with_this _ops_sem set_ops_sem fst snd].
  unfold signal, take_unit. cbn [broken waiters]. rewrite Hb, Hw.
  destruct (finally (do_start_server E) signal_ops_sem _) as [[r s1] t1].
  reflexivity.
Qed.

(** C6: the controller is constructed with an operations semaphore of
    count 1.  A [start_server] that finds no unit available throws the
    retry-later error "CQL server is stopping, try again later", and a
    [request_stop_server] that finds none throws "CQL server is starting,
    try again later"; in both cases the state is left as it was and no
    call to a collaborator is made.  That is the case in every state the
    controller can reach in which an operation is in flight: a
    [start_server] called while a stop is in progress fails so without
    starting anything, and a [request_stop_server] called while a start
    is in progress fails so without stopping anything. *)
Theorem concurrent_start_stop_fail_fast :
  (∀ cfg m, _ops_sem (make_controller cfg m) = make_semaphore 1
            ∧ count (_ops_sem (make_controller cfg m)) = 1
            ∧ may_proceed (_ops_sem (make_controller cfg m)) 1 = true)
  ∧ (∀ E s, may_proceed (_ops_sem (this s)) 1 = false →
       start_server E s
       = (thrown (runtime_error "CQL server is stopping, try again later"),
          s, [])
       ∧ request_stop_server E s
         = (thrown (runtime_error "CQL server is starting, try again later"),
            s, []))
  ∧ (∀ y, reachable y → is_Some (in_flight y) →
       may_proceed (_ops_sem (this (now y))) 1 = false)
  ∧ (∀ y E, reachable y →
       in_flight y = Some op_request_stop_server
       ∨ in_flight y = Some op_stop_server →
       start_server E (now y)
       = (thrown (runtime_error "CQL server is stopping, try again later"),
          now y, []))
  ∧ (∀ y E, reachable y →
       in_flight y = Some op_start_server →
       request_stop_server E (now y)
       = (thrown (runtime_error "CQL server is starting, try again later"),
          now y, [])).
Proof.
  split_and!.
  - done.
  - intros E s H. split;
      [by apply start_server_unavailable
      |by apply request_stop_server_unavailable].
  - intros y Hy Hop. by apply in_flight_holds_unit; [apply invariant_reachable|].
  - intros y E Hy Hop. apply start_server_unavailable.
    apply in_flight_holds_unit; [by apply invariant_reachable|].
    destruct Hop as [->| ->]; eauto.
  - intros y E Hy Hop. apply request_stop_server_unavailable.
    apply in_flight_holds_unit; [by apply invariant_reachable|].
    rewrite Hop; eauto.
Qed.

(** ** Traces *)

Ltac run_monad :=
  unfold finally, on_error, try_catch, external, throw, emit,
    gets, modify, mbind, M_bind, mret, M_ret.

Ltac norm_trace := repeat rewrite <- app_assoc; rewrite ?app_nil_r; simpl.




(** ** The serving phase *)

Lemma set_cql_ready_run E ready s :
  let failure :=
    add_local_application_state_fails E RPC_READY (cql_ready ready) in
  set_cql_ready E ready s
  = (match failure with Some e => thrown e | None => returned tt end,
     (if succeeded failure then with_rpc_ready (cql_ready ready) s else s),
     [ready_event ready failure]).
Proof.
  unfold set_cql_ready, add_local_application_state. run_monad. simpl.
  by destruct (add_local_application_state_fails _ _ _).
Qed.

Lemma listen_run E k c s :
  ∃ s', listen E k c s
        = (match listen_fails E (addr c) with
           | Some e => thrown e
           | None => returned tt
           end, s', [EvListen c k (listen_fails E (addr c))])
        ∧ this s' = this s ∧ rpc_ready s' = rpc_ready s.
Proof.
  unfold listen. run_monad. simpl.
  destruct (listen_fails E (addr c)); simpl; [by eauto|].
  destruct (addr c); simpl; eauto.
Qed.

Lemma parallel_listen_run E k configs s :
  ∃ r s', parallel_for_each configs (listen E k) s
          = (r, s', listen_events E k configs)
    ∧ (if listens_succeed E configs then r = returned tt
       else ∃ e, r = thrown e)
    ∧ this s' = this s ∧ rpc_ready s' = rpc_ready s.
Proof.
  revert s. induction configs as [|c configs IH]; intros s.
  { eexists _, _. by split_and!. }
  destruct (listen_run E k c s) as (s1 & Hl & Hthis1 & Hr1).
  destruct (IH s1) as (r2 & s2 & Hp & Hr2 & Hthis2 & Hrr2).
  simpl. run_monad. rewrite Hl.
  destruct (listen_fails E (addr c)) as [e|] eqn:Hc; simpl; rewrite Hp; simpl.
  - destruct r2; simpl; rewrite ?app_nil_r; eexists _, _;
      (split_and!; [reflexivity|eauto|congruence..]).
  - destruct r2 as [[]|e2]; simpl; rewrite ?app_nil_r; eexists _, _;
      (split_and!; [reflexivity| |congruence..]).
    + done.
    + destruct (listens_succeed E configs); [done|eauto].
Qed.

Lemma serve_run E k server_cfg configs s :
  ∃ r s', serve E k server_cfg configs s = (r, s', serve_events E k configs)
   ∧ _listen_addresses (this s') = _listen_addresses (this s)
   ∧ (if serve_succeeds E configs
      then r = returned tt
           ∧ this s' = set_server
                         (Some {| server_config := server_cfg;
                                  listening := configs |}) (this s)
           ∧ rpc_ready s' = Some (cql_ready true)
      else (∃ e, r = thrown e) ∧ this s' = this s).
Proof.
  unfold serve, serve_events, serve_succeeds, subscribe_server.
  run_monad. simpl.
  destruct (subscribe_fails E) as [e|]; simpl; [by eauto 10|].
  destruct (parallel_listen_run E k configs s)
    as (r1 & s1 & -> & Hr1 & Hthis1 & Hrr1).
  destruct (listens_succeed E configs); simpl.
  - subst r1. rewrite set_cql_ready_run. simpl.
    destruct (add_local_application_state_fails E RPC_READY (cql_ready true))
      as [e|]; simpl; norm_trace; eexists _, _; split_and!; eauto;
      unfold with_this; simpl; by rewrite Hthis1.
  - destruct Hr1 as [e ->]. simpl. norm_trace.
    eexists _, _. split_and!; eauto. by rewrite Hthis1.
Qed.



Lemma listen_events_elem E k configs c :
  listens_succeed E configs = true → c ∈ configs →
  EvListen c k None ∈ listen_events E k configs.
Proof.
  unfold listens_succeed, listen_events. rewrite forallb_forall.
  intros Hall Hc. apply list_elem_of_fmap. exists c. split; [|done].
  apply list_elem_of_In, Hall in Hc. by destruct (listen_fails E (addr c)).
Qed.

(** ** Working out the listeners *)

Lemma setup_only_refl s : setup_only s s [].
Proof. by split_and!. Qed.

Lemma setup_only_trans s1 s2 s3 t1 t2 :
  setup_only s1 s2 t1 → setup_only s2 s3 t2 →
  setup_only s1 s3 (t1 ++ t2)%list.
Proof.
  unfold setup_only. intros (?&?&?) (?&?&?).
  split_and!; [by apply Forall_app|congruence..].
Qed.

Lemma configure_listeners_setup_only E cfg used :
  maintains setup_only (configure_listeners E cfg used).
Proof.
  unfold configure_listeners, tcp_configs, maintenance_configs,
    resolve_address, stat, unlink, push_listen_address.
  cbv zeta.
  maintained setup_only_refl setup_only_trans;
    by (split_and!; [repeat constructor|..]).
Qed.

Lemma tcp_configs_addresses E cfg fam pref s configs s' t :
  tcp_configs E cfg fam pref s = (returned configs, s', t) →
  _listen_addresses (this s')
  = (_listen_addresses (this s) ++ (addr <$> configs))%list.
Proof.
  unfold tcp_configs, resolve_address, push_listen_address. run_monad.
  cbv zeta. simpl. intros H.
  repeat case_match; simplify_eq; simpl; repeat rewrite <- app_assoc;
    rewrite ?app_nil_r; try done.
Qed.

Lemma unlink_of_removed files path :
  (unlink_of files path).1 = None → (unlink_of files path).2 !! path = None.
Proof.
  unfold unlink_of. repeat case_match; simpl; try done.
  all: intros _; apply lookup_delete_eq.
Qed.

Lemma maintenance_configs_returned cfg s configs s' t :
  maintenance_configs cfg s = (returned configs, s', t) →
  let path := maintenance_socket_path cfg in
  ∃ st res,
    configs = [{| addr := unix_domain_addr path; is_shard_aware := false;
                  cred := None |}]
    ∧ t = [EvStat path st; EvUnlink path res]
    ∧ res = (unlink_of (fs s) path).1
    ∧ (res = None ∨ res = Some ENOENT)
    ∧ (res = None → fs s' !! path = None)
    ∧ _listen_addresses (this s')
      = (_listen_addresses (this s) ++ [unix_domain_addr path])%list.
Proof.
  unfold maintenance_configs, stat, unlink, push_listen_address. run_monad.
  cbv zeta. simpl. intros H.
  repeat case_match; simplify_eq; simpl; eexists _, _;
    (split_and!; [done|done|done| | |done]);
    first [ by auto using unlink_of_removed
          | right; f_equal;
            by match goal with
               | H : bool_decide (_ ≠ ENOENT) = false |- _ =>
                   apply bool_decide_eq_false, dec_stable in H
               end
          | by left ].
Qed.


Lemma configure_listeners_addresses E cfg used s configs s' t :
  configure_listeners E cfg used s = (returned configs, s', t) →
  _listen_addresses (this s')
  = (_listen_addresses (this s) ++ (addr <$> configs))%list.
Proof.
  unfold configure_listeners. cbv zeta.
  destruct (negb used).
  - apply tcp_configs_addresses.
  - intros (st & res & -> & _ & _ & _ & _ & ->)%maintenance_configs_returned.
    done.
Qed.

(** ** [do_start_server] and [do_stop_server] phase by phase *)

Lemma do_start_server_running E s srv :
  _server (this s) = Some srv → do_start_server E s = (returned tt, s, []).
Proof. intros H. unfold do_start_server. run_monad. by rewrite H. Qed.

Lemma do_start_server_phases E s :
  _server (this s) = None →
  do_start_server E s =
    match create_smp_service_group_fails E with
    | Some e => (thrown e, s, [EvCreateSmpServiceGroup 5000])
    | None =>
        match configure_listeners E (_config (this s))
                (_used_by_maintenance_socket (this s))
                (with_this (set_listen_addresses []) s) with
        | (thrown e, s2, t2) =>
            (thrown e, s2, EvCreateSmpServiceGroup 5000 :: t2)
        | (returned configs, s2, t2) =>
            let server_cfg := get_cql_server_config E (_config (this s)) in
            match server_start_fails E with
            | Some e =>
                (thrown e, s2,
                 EvCreateSmpServiceGroup 5000 :: t2
                 ++ [EvServerStart server_cfg])
            | None =>
                let '(r, s3, t3) :=
                  serve E (rpc_keepalive (_config (this s))) server_cfg
                    configs s2 in
                (r, s3,
                 EvCreateSmpServiceGroup 5000 :: t2
                 ++ EvServerStart server_cfg :: t3)
            end
        end
    end%list.
Proof.
  intros Hsrv.
  change (do_start_server E s) with
    ((srv ← gets (λ s, _server (this s));
      match srv with
      | Some _ => mret tt
      | None =>
          cfg ← gets (λ s, _config (this s));
          emit (EvCreateSmpServiceGroup 5000);;
          external (create_smp_service_group_fails E);;
          modify (with_this (set_listen_addresses []));;
          used ← gets (λ s, _used_by_maintenance_socket (this s));
          configs ← configure_listeners E cfg used;
          emit (EvServerStart (get_cql_server_config E cfg));;
          external (server_start_fails E);;
          serve E (rpc_keepalive cfg) (get_cql_server_config E cfg) configs
      end) s).
  run_monad. rewrite Hsrv.
  cbn [fst snd app].
  destruct (create_smp_service_group_fails E); [done|].
  cbn [fst snd app this with_this set_listen_addresses _config
       _used_by_maintenance_socket].
  match goal with
  | |- context [configure_listeners E _ _ ?s1] =>
      change s1 with (with_this (set_listen_addresses []) s)
  end.
  destruct (configure_listeners E _ _ _) as [[[configs|e] s2] t2];
    [|done].
  destruct (server_start_fails E); [by norm_trace|].
  destruct (serve E _ _ configs s2) as [[r s3] t3]. by norm_trace.
Qed.



(** ** [start_server] around [do_start_server] *)

Lemma start_server_run E s :
  start_server E s =
    if may_proceed (_ops_sem (this s)) 1
    then
      let '(r, s1, t) := do_start_server E (acquired s) in
      (r, with_this (λ c, set_ops_sem (signal (_ops_sem c)).2 c) s1, t)
    else
      (thrown (runtime_error "CQL server is stopping, try again later"),
       s, []).
Proof.
  unfold start_server, mbind, M_bind. rewrite try_wait_ops_sem_run.
  destruct (may_proceed _ 1); [|done]. cbn [negb].
  unfold finally, signal_ops_sem, modify, acquired.
  destruct (do_start_server E _) as [[r s1] t]. by rewrite app_nil_r.
Qed.





(** ** The maintenance socket *)






(** While the stop of the example is in progress a start fails fast, and
    while the start of the example is in progress a stop fails fast. *)
Lemma concurrent_start_stop_witness :
  start_server Examples.all_succeed (now Examples.stopping)
  = (thrown (runtime_error "CQL server is stopping, try again later"),
     now Examples.stopping, [])
  ∧ request_stop_server Examples.all_succeed (now Examples.starting)
    = (thrown (runtime_error "CQL server is starting, try again later"),
       now Examples.starting, []).
Proof.
  pose proof concurrent_start_stop_fail_fast as (_ & _ & _ & Hstop & Hstart).
  split.
  - apply Hstop; [by eexists _, _, _, _|left; reflexivity].
  - apply Hstart; [by eexists _, _, _, _|reflexivity].
Defined.


End ControllerFacts.

(** * The lifecycle of the CQL server, operation by operation *)

Module LifecycleFacts.
Import CqlTransport Vocabulary Scenarios ControllerFacts.

Local Open Scope string_scope.
Local Open Scope Z_scope.

(** ** The unit of the operations semaphore *)

Lemma semaphore_eta sem :
  {| count := count sem; waiters := waiters sem; broken := broken sem |} = sem.
Proof. by destruct sem. Qed.

Lemma signal_take_unit sem :
  may_proceed sem 1 = true → broken sem = false →
  (signal (take_unit sem)).2 = sem.
Proof.
  intros [_ Hw]%may_proceed_true Hb. unfold signal, take_unit. simpl.
  rewrite Hb, Hw. simpl. destruct sem as [c w b]. simpl in *. subst.
  f_equal. lia.
Qed.


Lemma request_stop_server_run E s :
  request_stop_server E s =
    if may_proceed (_ops_sem (this s)) 1
    then
      let '(r, s1, t) := do_stop_server E (acquired s) in
      (r, with_this (λ c, set_ops_sem (signal (_ops_sem c)).2 c) s1, t)
    else
      (thrown (runtime_error "CQL server is starting, try again later"),
       s, []).
Proof.
  unfold request_stop_server, mbind, M_bind. rewrite try_wait_ops_sem_run.
  destruct (may_proceed _ 1); [|done]. cbn [negb].
  unfold finally, signal_ops_sem, modify, acquired.
  destruct (do_stop_server E _) as [[r s1] t]. by rewrite app_nil_r.
Qed.

Lemma release_acquire_same s :
  may_proceed (_ops_sem (this s)) 1 = true →
  broken (_ops_sem (this s)) = false →
  with_this (λ c, set_ops_sem (signal (_ops_sem c)).2 c) (acquired s) = s.
Proof.
  intros Hp Hb. unfold acquired, with_this. simpl.
  rewrite (signal_take_unit _ Hp Hb). destruct s as [[] ? ?]. done.
Qed.

(** X1: [start_server] on a controller whose server is running returns
    at once: it makes no call to a collaborator and leaves the controller
    and its world exactly as they were, the unit given back. *)
Theorem start_server_when_running_changes_nothing E s srv :
  _server (this s) = Some srv →
  may_proceed (_ops_sem (this s)) 1 = true →
  broken (_ops_sem (this s)) = false →
  start_server E s = (returned tt, s, []).
Proof.
  intros Hsrv Hp Hb. rewrite start_server_run, Hp.
  rewrite (do_start_server_running E (acquired s) srv) by done.
  by rewrite release_acquire_same.
Qed.

Lemma do_stop_server_not_running E s :
  _server (this s) = None → do_stop_server E s = (returned tt, s, []).
Proof.
  intros H. unfold do_stop_server. run_monad. rewrite H. simpl.
  unfold with_this. rewrite <- H. destruct s as [[] ? ?]. done.
Qed.

(** X2: [request_stop_server] on a controller without a server returns
    at once: no call to a collaborator (in particular the readiness bit
    is not touched), nothing changed, the unit given back. *)
Theorem request_stop_server_when_not_running_changes_nothing E s :
  _server (this s) = None →
  may_proceed (_ops_sem (this s)) 1 = true →
  broken (_ops_sem (this s)) = false →
  request_stop_server E s = (returned tt, s, []).
Proof.
  intros Hsrv Hp Hb. rewrite request_stop_server_run, Hp.
  rewrite (do_stop_server_not_running E (acquired s)) by done.
  by rewrite release_acquire_same.
Qed.



(** ** How a start ends *)

Lemma serve_thrown E k server_cfg configs s e s' t :
  serve E k server_cfg configs s = (thrown e, s', t) →
  this s' = this s ∧ rpc_ready s' = rpc_ready s
  ∧ ∃ t0, t = (EvSubscribe :: t0 ++ [EvServerStop])%list
      ∧ (subscribe_fails E = None →
         ∃ t1, t0 = (t1 ++ [EvUnsubscribe])%list)
      ∧ ∀ f, ready_event true f ∈ t → is_Some f.
Proof.
  unfold serve, subscribe_server. run_monad. simpl.
  destruct (subscribe_fails E) as [e0|]; simpl.
  { intros [= <- <- <-]. split_and!; [done..|]. exists []. split_and!; [done..|].
    intros f [[=]|[[=]|Hf%elem_of_nil]%elem_of_cons]%elem_of_cons. done. }
  destruct (parallel_listen_run E k configs s)
    as (r1 & s1 & -> & Hr1 & Hthis1 & Hrr1).
  assert (∀ f, ready_event true f ∉ listen_events E k configs) as Hnr.
  { intros f (c & [=] & _)%list_elem_of_fmap. }
  destruct (listens_succeed E configs); simpl.
  - subst r1. rewrite set_cql_ready_run. simpl.
    destruct (add_local_application_state_fails E RPC_READY (cql_ready true))
      as [e1|] eqn:Hg; simpl; [|done].
    intros [= <- <- <-]. split_and!; [congruence..|].
    eexists (listen_events E k configs
             ++ [ready_event true (Some _); EvUnsubscribe])%list.
    split_and!.
    + by norm_trace.
    + intros _. eexists (listen_events E k configs
                         ++ [ready_event true (Some _)])%list.
      by norm_trace.
    + intros f. norm_trace. rewrite elem_of_cons, elem_of_app, !elem_of_cons.
      intros [[=]|[Hf|[[= ->]|[[=]|[[=]|Hf%elem_of_nil]]]]];
        [by destruct (Hnr f)|done|done].
  - destruct Hr1 as [e1 ->]. simpl.
    intros [= <- <- <-]. split_and!; [congruence..|].
    exists (listen_events E k configs ++ [EvUnsubscribe])%list.
    split_and!.
    + by norm_trace.
    + intros _. by exists (listen_events E k configs).
    + intros f. norm_trace. rewrite elem_of_cons, elem_of_app, !elem_of_cons.
      intros [[=]|[Hf|[[=]|[[=]|Hf%elem_of_nil]]]]; [by destruct (Hnr f)|done].
Qed.

Lemma configure_listeners_keeps_ready E cfg used s :
  rpc_ready (configure_listeners E cfg used s).1.2 = rpc_ready s
  ∧ _server (this (configure_listeners E cfg used s).1.2) = _server (this s)
  ∧ Forall (λ e, is_setup e = true) (configure_listeners E cfg used s).2.
Proof.
  by destruct (configure_listeners_setup_only E cfg used s) as (? & ? & ?).
Qed.

(** X4: a [start_server] that fails leaves nothing behind.  Whatever
    makes it throw, the controller still has no server afterwards,
    [listen_addresses()] reports nothing, and readiness was not
    published: the gossip call, if it was made at all, is the call that
    failed, and the readiness bit is as before.  A server that had been
    started is stopped again as the last call, after being unsubscribed
    when it had been subscribed. *)
Theorem failed_start_leaves_nothing_behind E s e s' t :
  _server (this s) = None →
  start_server E s = (thrown e, s', t) →
  _server (this s') = None
  ∧ listen_addresses (this s') = []
  ∧ rpc_ready s' = rpc_ready s
  ∧ (∀ f, ready_event true f ∈ t → is_Some f)
  ∧ (server_start_fails E = None →
     ∀ c, EvServerStart c ∈ t → ∃ t0, t = (t0 ++ [EvServerStop])%list)
  ∧ (subscribe_fails E = None →
     EvSubscribe ∈ t →
     ∃ t0, t = (t0 ++ [EvUnsubscribe; EvServerStop])%list).
Proof.
  intros Hsrv. rewrite start_server_run.
  destruct (may_proceed _ 1).
  2: { intros [= <- <- <-]. unfold listen_addresses. rewrite Hsrv.
       split_and!; [done..| | |]; intros; by set_solver. }
  rewrite (do_start_server_phases E (acquired s)) by done.
  assert (∀ (l : list event) x, Forall (λ e, is_setup e = true) l →
            is_setup x = false → x ∉ l) as Hnot.
  { intros l x Hl Hx Hin.
    apply (list.Forall_forall (λ e, is_setup e = true)) with (x := x) in Hl;
      congruence. }
  assert (∀ s1 : state, _server (this s1) = None →
            listen_addresses
              (this (with_this
                       (λ c, set_ops_sem (signal (_ops_sem c)).2 c) s1)) = [])
    as Hla.
  { intros s1 H1. unfold listen_addresses. simpl. by rewrite H1. }
  destruct (create_smp_service_group_fails E).
  { intros [= <- <- <-]. split_and!; [by simpl|by apply Hla|done| | |].
    - intros f [[=]|Hf%elem_of_nil]%elem_of_cons. done.
    - intros _ c [[=]|Hf%elem_of_nil]%elem_of_cons. done.
    - intros _ [[=]|Hf%elem_of_nil]%elem_of_cons. done. }
  cbn [acquired with_this this _config _used_by_maintenance_socket
       set_ops_sem].
  match goal with
  | |- context [configure_listeners E ?cfg ?used ?s1] =>
      destruct (configure_listeners_keeps_ready E cfg used s1)
        as (Hready & Hserver & Hsetup);
      destruct (configure_listeners E cfg used s1)
        as [[[configs|e0] s2] t2] eqn:Hcl
  end; simpl in Hready, Hserver, Hsetup.
  all: assert (_server (this s2) = None) as Hs2 by congruence.
  2: { intros [= <- <- <-]. split_and!; [done|by apply Hla|done| | |].
       - intros f [[=]|Hf]%elem_of_cons. by apply Hnot in Hf.
       - intros _ c [[=]|Hf]%elem_of_cons. by apply Hnot in Hf.
       - intros _ [[=]|Hf]%elem_of_cons. by apply Hnot in Hf. }
  cbv zeta.
  destruct (server_start_fails E) eqn:Hstart.
  { intros [= <- <- <-]. split_and!; [done|by apply Hla|done| |done|].
    - intros f [[=]|[Hf|[[=]|Hf%elem_of_nil]%elem_of_cons]%elem_of_app]%elem_of_cons;
        [by apply Hnot in Hf|done].
    - intros _ [[=]|[Hf|[[=]|Hf%elem_of_nil]%elem_of_cons]%elem_of_app]%elem_of_cons;
        [by apply Hnot in Hf|done]. }
  match goal with
  | |- context [serve E ?k ?sc configs s2] =>
      pose proof (serve_thrown E k sc configs s2) as Hserve;
      destruct (serve E k sc configs s2) as [[r s3] t3]
  end.
  intros [= -> <- <-].
  destruct (Hserve e s3 t3 eq_refl)
    as (Hthis & Hrr & t0 & -> & Hunsub & Hgossip).
  split_and!.
  - simpl. by rewrite Hthis.
  - apply Hla. by rewrite Hthis.
  - simpl. congruence.
  - intros f [[=]|[Hf|[[=]|Hf]%elem_of_cons]%elem_of_app]%elem_of_cons;
      [by apply Hnot in Hf|by apply Hgossip].
  - intros _ c _. eexists (_ :: t2 ++ _ :: _ :: t0)%list.
    simpl. f_equal. by rewrite <- app_assoc.
  - intros Hsub _. destruct (Hunsub Hsub) as [t1 ->].
    eexists (_ :: t2 ++ _ :: _ :: t1)%list.
    simpl. f_equal. rewrite <- !app_assoc. reflexivity.
Qed.

Lemma serve_returned E k server_cfg configs s s' t :
  serve E k server_cfg configs s = (returned tt, s', t) →
  this s' = set_server (Some {| server_config := server_cfg;
                                listening := configs |}) (this s)
  ∧ rpc_ready s' = Some (cql_ready true)
  ∧ listens_succeed E configs = true
  ∧ t = (EvSubscribe :: listen_events E k configs
         ++ [ready_event true None])%list.
Proof.
  destruct (serve_run E k server_cfg configs s)
    as (r & s1 & -> & _ & Hres).
  unfold serve_succeeds, serve_events in *.
  destruct (subscribe_fails E); simpl in Hres.
  { destruct Hres as [[? ->] _]. done. }
  destruct (listens_succeed E configs); simpl in Hres.
  2: { destruct Hres as [[? ->] _]. done. }
  destruct (add_local_application_state_fails E RPC_READY (cql_ready true));
    simpl in Hres.
  { destruct Hres as [[? ->] _]. done. }
  destruct Hres as (-> & ? & ?). by intros [= <- <-].
Qed.

Lemma successful_start E s s' t :
  _server (this s) = None →
  start_server E s = (returned tt, s', t) →
  ∃ srv,
    _server (this s') = Some srv
    ∧ server_config srv = get_cql_server_config E (_config (this s))
    ∧ listen_addresses (this s') = addr <$> listening srv
    ∧ (∀ c, c ∈ listening srv →
         EvListen c (rpc_keepalive (_config (this s))) None ∈ t)
    ∧ rpc_ready s' = Some (cql_ready true)
    ∧ last t = Some (ready_event true None).
Proof.
  intros Hsrv. rewrite start_server_run.
  destruct (may_proceed _ 1); [|done].
  rewrite (do_start_server_phases E (acquired s)) by done.
  destruct (create_smp_service_group_fails E); [done|].
  cbn [acquired with_this this _config _used_by_maintenance_socket
       set_ops_sem].
  match goal with
  | |- context [configure_listeners E ?cfg ?used ?s1] =>
      pose proof (configure_listeners_addresses E cfg used s1) as Haddr;
      destruct (configure_listeners E cfg used s1)
        as [[[configs|e0] s2] t2] eqn:Hcl
  end; [|done].
  specialize (Haddr configs s2 t2 eq_refl). simpl in Haddr.
  cbv zeta. destruct (server_start_fails E); [done|].
  match goal with
  | |- context [serve E ?k ?sc configs s2] =>
      pose proof (serve_returned E k sc configs s2) as Hserve;
      destruct (serve E k sc configs s2) as [[r s3] t3]
  end.
  intros [= -> <- <-].
  destruct (Hserve s3 t3 eq_refl) as (Hthis & Hready & Hok & ->).
  eexists. split_and!.
  - simpl. rewrite Hthis. reflexivity.
  - done.
  - unfold listen_addresses. simpl. rewrite Hthis. simpl. done.
  - intros c Hc. simpl in Hc. apply elem_of_cons. right.
    apply elem_of_app. right. apply elem_of_cons. right. apply elem_of_cons.
    right. apply elem_of_app. left. by apply listen_events_elem.
  - done.
  - match goal with
    | |- last (?a :: ?l1 ++ ?b :: ?c :: ?l2 ++ [?x])%list = _ =>
        change (a :: l1 ++ b :: c :: l2 ++ [x])%list
          with ((a :: l1) ++ (b :: c :: l2) ++ [x])%list
    end.
    by rewrite !app_assoc, last_snoc.
Qed.

(** X5: a [start_server] that returns on a controller without a server
    has started one.  The controller then owns a server built from the
    configuration, every listener of that server was started
    successfully, [listen_addresses()] reports exactly the addresses of
    these listeners, the readiness bit is true, and publishing it was the
    last call made. *)
Theorem successful_start_serves_what_it_reports E s s' t :
  _server (this s) = None →
  start_server E s = (returned tt, s', t) →
  ∃ srv,
    _server (this s') = Some srv
    ∧ server_config srv = get_cql_server_config E (_config (this s))
    ∧ listen_addresses (this s') = addr <$> listening srv
    ∧ (∀ c, c ∈ listening srv →
         EvListen c (rpc_keepalive (_config (this s))) None ∈ t)
    ∧ rpc_ready s' = Some (cql_ready true)
    ∧ last t = Some (ready_event true None).
Proof. exact (successful_start E s s' t). Qed.

(** ** How a stop ends *)

Lemma do_stop_server_outcome E s srv :
  _server (this s) = Some srv →
  closed (_bg_stops (this s)) = false →
  let gossip :=
    add_local_application_state_fails E RPC_READY (cql_ready false) in
  ∃ s', do_stop_server E s
        = (match gossip, unsubscribe_fails E, shutdown_fails E with
           | Some e, _, _ => thrown e
           | None, Some e, _ => thrown e
           | None, None, Some e => thrown e
           | None, None, None => returned tt
           end, s', stop_events E)
    ∧ this s' = (if stop_ready E then set_server None (this s)
                 else set_bg_stops
                        {| holders := S (holders (_bg_stops (this s)));
                           closed := false |} (set_server None (this s)))
    ∧ rpc_ready s' = (if succeeded gossip then Some (cql_ready false)
                      else rpc_ready s)
    ∧ fs s' = fs s.
Proof.
  intros H Hc. unfold do_stop_server, stop_events, unsubscribe_server,
    shutdown, hold_bg_stops.
  run_monad. rewrite H, set_cql_ready_run. cbv zeta. simpl.
  destruct (add_local_application_state_fails E RPC_READY (cql_ready false));
    destruct (unsubscribe_fails E); destruct (shutdown_fails E);
    destruct (stop_ready E);
    simpl; rewrite ?Hc; simpl; eexists; split_and!; done.
Qed.

Lemma stop_outcome E s srv :
  _server (this s) = Some srv →
  may_proceed (_ops_sem (this s)) 1 = true →
  closed (_bg_stops (this s)) = false →
  let gossip :=
    add_local_application_state_fails E RPC_READY (cql_ready false) in
  ∃ s' t,
    request_stop_server E s
    = (match gossip, unsubscribe_fails E, shutdown_fails E with
       | Some e, _, _ => thrown e
       | None, Some e, _ => thrown e
       | None, None, Some e => thrown e
       | None, None, None => returned tt
       end, s', t)
    ∧ _server (this s') = None
    ∧ listen_addresses (this s') = []
    ∧ holders (_bg_stops (this s'))
      = (if stop_ready E then holders (_bg_stops (this s))
         else S (holders (_bg_stops (this s))))
    ∧ closed (_bg_stops (this s')) = false
    ∧ head t = Some (ready_event false gossip)
    ∧ last t = Some EvServerStop
    ∧ (EvShutdown ∈ t ↔ unsubscribe_fails E = None)
    ∧ (gossip = None → rpc_ready s' = Some (cql_ready false))
    ∧ (is_Some gossip → rpc_ready s' = rpc_ready s).
Proof.
  intros Hsrv Hp Hc. cbv zeta. rewrite request_stop_server_run, Hp.
  destruct (do_stop_server_outcome E (acquired s) srv)
    as (s1 & -> & Hthis & Hready & _); [done..|].
  eexists _, _. split; [reflexivity|].
  unfold listen_addresses, stop_events. simpl. rewrite Hthis. simpl.
  split_and!; [by destruct (stop_ready E)..| | | |].
  - by destruct (succeeded (unsubscribe_fails E)).
  - destruct (unsubscribe_fails E); simpl; split; try done.
    + intros [[=]|[[=]|[[=]|Hf%elem_of_nil]%elem_of_cons]%elem_of_cons]%elem_of_cons.
      done.
    + intros _. do 2 apply list_elem_of_further. apply list_elem_of_here.
  - intros Hg. by rewrite Hready, Hg.
  - intros [e Hg]. by rewrite Hready, Hg.
Qed.

(** X6: [request_stop_server] on a running server always takes the
    server away and stops it, whatever fails on the way.  It first
    makes the gossip call that clears the readiness bit, then
    unsubscribes and shuts the server down, then stops it in the
    background; the shutdown is skipped exactly when unsubscribing
    failed, stopping is always the last call.  The stop holds the
    background gate until it resolves: when the call returns the gate
    has one holder more unless the stop was ready at once, and it is
    still open.  The call throws the first exception raised on the way
    (that of the gossip call before that of unsubscribing before that
    of the shutdown) and returns normally only when none was raised;
    either way the controller has no server afterwards and
    [listen_addresses()] reports nothing. *)
Theorem stop_always_stops_and_reports_first_failure E s srv :
  _server (this s) = Some srv →
  may_proceed (_ops_sem (this s)) 1 = true →
  closed (_bg_stops (this s)) = false →
  let gossip :=
    add_local_application_state_fails E RPC_READY (cql_ready false) in
  ∃ s' t,
    request_stop_server E s
    = (match gossip, unsubscribe_fails E, shutdown_fails E with
       | Some e, _, _ => thrown e
       | None, Some e, _ => thrown e
       | None, None, Some e => thrown e
       | None, None, None => returned tt
       end, s', t)
    ∧ _server (this s') = None
    ∧ listen_addresses (this s') = []
    ∧ holders (_bg_stops (this s'))
      = (if stop_ready E then holders (_bg_stops (this s))
         else S (holders (_bg_stops (this s))))
    ∧ closed (_bg_stops (this s')) = false
    ∧ head t = Some (ready_event false gossip)
    ∧ last t = Some EvServerStop
    ∧ (EvShutdown ∈ t ↔ unsubscribe_fails E = None)
    ∧ (gossip = None → rpc_ready s' = Some (cql_ready false))
    ∧ (is_Some gossip → rpc_ready s' = rpc_ready s).
Proof. exact (stop_outcome E s srv). Qed.

(** ** Start, stop, start again *)

Lemma bg_stops_kept_refl s : bg_stops_kept s s [].
Proof. done. Qed.

Lemma bg_stops_kept_trans s1 s2 s3 t1 t2 :
  bg_stops_kept s1 s2 t1 → bg_stops_kept s2 s3 t2 →
  bg_stops_kept s1 s3 (t1 ++ t2)%list.
Proof. unfold bg_stops_kept. congruence. Qed.

Lemma do_start_server_keeps_bg_stops E :
  maintains bg_stops_kept (do_start_server E).
Proof.
  unfold do_start_server, tcp_configs, maintenance_configs, resolve_address,
    stat, unlink, push_listen_address, subscribe_server, set_cql_ready,
    add_local_application_state, listen.
  cbv zeta.
  maintained bg_stops_kept_refl bg_stops_kept_trans; done.
Qed.


(** ** Calls that overlap, continued *)

Lemma reachable_run l y : reachable y → reachable (run l y).
Proof.
  intros (cfg & m & files & l0 & ->). exists cfg, m, files, (l0 ++ l)%list.
  unfold run. by rewrite foldl_app.
Qed.

Lemma stopped_stays a y :
  _stopped (this (now y)) = true → _stopped (this (now (step a y))) = true.
Proof.
  intros Hs. destruct a as [| | |E|files|]; unfold step.
  - rewrite try_wait_ops_sem_run. by destruct (may_proceed _ 1).
  - rewrite try_wait_ops_sem_run. by destruct (may_proceed _ 1).
  - cbv zeta. by rewrite Hs.
  - destruct (in_flight y) as [op|]; [|done].
    assert (_stopped (this (completed E op (now y)).1) = true) as Hc.
    { destruct op; unfold completed; cbn [fst].
      - by destruct (finally_signal_lifecycle (do_start_server E) (now y)
                       (do_start_server_keeps_lifecycle E)) as [_ ->].
      - by destruct (finally_signal_lifecycle (do_stop_server E) (now y)
                       (do_stop_server_keeps_lifecycle E)) as [_ ->].
      - pose proof (do_stop_server_keeps_lifecycle E (now y)) as (_ & Hst & _).
        destruct (do_stop_server E (now y)) as [[[[]|e] s1] t1];
          simpl in *; congruence. }
    destruct (completed E op (now y)) as [s1 resumed]. simpl in Hc.
    by destruct resumed.
  - done.
  - done.
Qed.

Lemma stopped_stays_run l y :
  _stopped (this (now y)) = true → _stopped (this (now (run l y))) = true.
Proof.
  revert y. induction l as [|a l IH]; intros y Hs; [done|].
  apply (IH (step a y)). by apply stopped_stays.
Qed.

Lemma stopped_holds_unit y :
  lifecycle_invariant y → _stopped (this (now y)) = true →
  may_proceed (_ops_sem (this (now y))) 1 = false.
Proof.
  unfold lifecycle_invariant. intros Hy Hs. apply may_proceed_false.
  rewrite Hs in Hy. destruct (in_flight y) as [[]|]; destruct_and?; by try lia.
Qed.

Lemma idle_has_unit y :
  lifecycle_invariant y → in_flight y = None →
  _stopped (this (now y)) = false →
  may_proceed (_ops_sem (this (now y))) 1 = true
  ∧ broken (_ops_sem (this (now y))) = false.
Proof.
  unfold lifecycle_invariant. intros Hy Hidle Hs. rewrite Hidle, Hs in Hy.
  destruct Hy as (Hc & Hw & Hb). split; [|done].
  apply may_proceed_true. lia.
Qed.

(** X8: [stop_server] is final.  Once [stop_server] has been called on
    a controller with no operation in flight, the controller is stopped
    and stays so whatever is called afterwards: from then on every
    [start_server] and every [request_stop_server] is turned away with
    the retry-later error, without a call to a collaborator and without
    a change to the controller. *)
Theorem stop_server_is_final y l E :
  reachable y →
  in_flight y = None →
  let y' := run (call_stop_server :: l) y in
  _stopped (this (now y')) = true
  ∧ start_server E (now y')
    = (thrown (runtime_error "CQL server is stopping, try again later"),
       now y', [])
  ∧ request_stop_server E (now y')
    = (thrown (runtime_error "CQL server is starting, try again later"),
       now y', []).
Proof.
  intros Hy Hidle y'.
  assert (_stopped (this (now y')) = true) as Hs.
  { apply (stopped_stays_run l (step call_stop_server y)).
    unfold step. cbv zeta.
    destruct (_stopped (this (now y))) eqn:Hst; [done|].
    by destruct (idle_has_unit y (invariant_reachable y Hy) Hidle Hst)
      as [-> _]. }
  assert (may_proceed (_ops_sem (this (now y'))) 1 = false) as Hp.
  { apply stopped_holds_unit; [|done].
    by apply invariant_reachable, reachable_run. }
  split_and!; [done| |].
  - by apply start_server_unavailable.
  - by apply request_stop_server_unavailable.
Qed.


(** X10: the retry-later message names the opposite operation, not the
    one in flight.  A [start_server] that arrives while another
    [start_server] is in flight is turned away with "CQL server is
    stopping, try again later", and a [request_stop_server] that arrives
    while another [request_stop_server] is in flight with "CQL server is
    starting, try again later"; neither changes anything. *)
Theorem retry_message_names_the_opposite_operation y E :
  reachable y →
  (in_flight y = Some op_start_server →
   start_server E (now y)
   = (thrown (runtime_error "CQL server is stopping, try again later"),
      now y, []))
  ∧ (in_flight y = Some op_request_stop_server →
     request_stop_server E (now y)
     = (thrown (runtime_error "CQL server is starting, try again later"),
        now y, [])).
Proof.
  intros Hy. apply invariant_reachable in Hy.
  split; intros Hop.
  - apply start_server_unavailable, in_flight_holds_unit; [done|].
    rewrite Hop. by eexists.
  - apply request_stop_server_unavailable, in_flight_holds_unit; [done|].
    rewrite Hop. by eexists.
Qed.

(** ** The TCP listeners *)

Ltac tcp_cases cfg :=
  destruct (native_transport_port cfg) as [[] ?];
  destruct (native_transport_port_ssl cfg) as [[] ?];
  destruct (native_shard_aware_transport_port cfg) as [[] ?];
  destruct (native_shard_aware_transport_port_ssl cfg) as [[] ?].

Ltac tcp_listeners_equal :=
  simpl;
  repeat match goal with
         | |- context [?a =? ?b] => destruct (a =? b); simpl
         end;
  repeat rewrite <- app_assoc; rewrite ?app_nil_r; simpl; done.

Lemma tcp_configs_returned E cfg fam pref s ip :
  resolve E (rpc_address cfg) fam pref = inr ip →
  (encryption_enabled E cfg = true →
   configure_tls_creds_builder_fails E = None) →
  tcp_configs E cfg fam pref s
  = (returned (tcp_listeners E cfg ip),
     with_this (λ c, set_listen_addresses
       (_listen_addresses c ++ (addr <$> tcp_listeners E cfg ip))%list c) s,
     EvResolve (rpc_address cfg) fam pref
     :: (if encryption_enabled E cfg then [EvConfigureTls] else [])).
Proof.
  unfold tcp_listeners, plain_listener, ssl_listener, serves_plain_port,
    serves_ssl_port, encryption_enabled, tcp_configs, resolve_address,
    push_listen_address, with_this.
  intros -> Htls. run_monad. cbv zeta. destruct s as [[] ? ?]. simpl.
  destruct (is_true E _); simpl.
  - rewrite Htls by done. simpl.
    tcp_cases cfg; tcp_listeners_equal.
  - tcp_cases cfg; tcp_listeners_equal.
Qed.

Lemma tcp_configs_thrown E cfg fam pref s :
  (∀ e, resolve E (rpc_address cfg) fam pref = inl e →
     tcp_configs E cfg fam pref s
     = (thrown e, s, [EvResolve (rpc_address cfg) fam pref]))
  ∧ (∀ ip e, resolve E (rpc_address cfg) fam pref = inr ip →
       encryption_enabled E cfg = true →
       configure_tls_creds_builder_fails E = Some e →
       ∃ s', tcp_configs E cfg fam pref s
             = (thrown e, s',
                [EvResolve (rpc_address cfg) fam pref; EvConfigureTls])).
Proof.
  unfold encryption_enabled, tcp_configs, resolve_address,
    push_listen_address.
  split.
  - intros e ->. by run_monad.
  - intros ip e -> Htls He. run_monad. cbv zeta. simpl.
    rewrite Htls, He. simpl. tcp_cases cfg; simpl; by eexists.
Qed.

Lemma tcp_configs_inv E cfg fam pref s configs s' t :
  tcp_configs E cfg fam pref s = (returned configs, s', t) →
  ∃ ip, resolve E (rpc_address cfg) fam pref = inr ip
    ∧ configs = tcp_listeners E cfg ip
    ∧ t = EvResolve (rpc_address cfg) fam pref
          :: (if encryption_enabled E cfg then [EvConfigureTls] else []).
Proof.
  destruct (tcp_configs_thrown E cfg fam pref s) as [Hres Htls].
  destruct (resolve E (rpc_address cfg) fam pref) as [e|ip] eqn:Hr.
  { by rewrite (Hres e). }
  destruct (encryption_enabled E cfg) eqn:Hen.
  - destruct (configure_tls_creds_builder_fails E) as [e|] eqn:He.
    { destruct (Htls ip e) as [s1 ->]; done. }
    rewrite (tcp_configs_returned E cfg fam pref s ip) by done.
    intros [= <- <- <-]. exists ip. rewrite Hen. by split_and!.
  - rewrite (tcp_configs_returned E cfg fam pref s ip)
      by (try done; congruence).
    intros [= <- <- <-]. exists ip. rewrite Hen. by split_and!.
Qed.


Lemma tcp_listeners_shape E cfg ip :
  let configs := tcp_listeners E cfg ip in
  (length configs <= 4)%nat
  ∧ Forall (λ c, ∃ port, addr c = inet_socket ip port) configs
  ∧ (encryption_enabled E cfg = false → Forall (λ c, cred c = None) configs)
  ∧ (configs = [] ↔
       encryption_enabled E cfg = false
       ∧ serves_plain_port (native_transport_port cfg)
           (native_transport_port_ssl cfg) = false
       ∧ serves_plain_port (native_shard_aware_transport_port cfg)
           (native_shard_aware_transport_port_ssl cfg) = false).
Proof.
  unfold tcp_listeners, plain_listener, ssl_listener, serves_plain_port,
    serves_ssl_port.
  destruct (encryption_enabled E cfg); tcp_cases cfg; simpl;
    repeat match goal with
           | |- context [?a =? ?b] => destruct (a =? b); simpl
           end;
    (split_and!; [lia|by repeat (constructor; eauto)
                 |try done; intros _; by repeat constructor
                 |split; [done|by intros (?&?&?)]]).
Qed.

(** ** The maintenance socket and the file system *)

Lemma with_fs_same s : with_fs (λ _, fs s) s = s.
Proof. by destruct s. Qed.

Lemma unlink_of_failed files path e :
  (unlink_of files path).1 = Some e → (unlink_of files path).2 = files.
Proof. unfold unlink_of. by repeat case_match. Qed.

Lemma maintenance_configs_run cfg s :
  let path := maintenance_socket_path cfg in
  maintenance_configs cfg s
  = match failed_socket_check (fs s) path with
    | Some c =>
        (thrown (socket_check_error path c), s,
         socket_check_calls (fs s) path c)
    | None =>
        (returned [{| addr := unix_domain_addr path; is_shard_aware := false;
                      cred := None |}],
         with_this (λ c, set_listen_addresses
           (_listen_addresses c ++ [unix_domain_addr path])%list c)
           (with_fs (λ _, (unlink_of (fs s) path).2) s),
         [EvStat path (stat_of (fs s) path);
          EvUnlink path (unlink_of (fs s) path).1])
    end.
Proof.
  cbv zeta. unfold maintenance_configs, failed_socket_check.
  cbv zeta. set (path := maintenance_socket_path cfg).
  destruct (107 <? Z.of_nat (String.length path)); [done|].
  unfold stat, unlink, push_listen_address. run_monad. simpl.
  destruct (stat_of (fs s) path) as [[]|[]] eqn:Hstat; simpl; try done.
  all: pose proof (unlink_of_failed (fs s) path) as Hfail;
    destruct (unlink_of (fs s) path) as [[[]|] files]; simpl in *;
    rewrite ?Hstat; try done.
  all: by rewrite (Hfail _ eq_refl), with_fs_same.
Qed.

Lemma failed_socket_check_none files path :
  failed_socket_check files path = None →
  Z.of_nat (String.length path) <= 107
  ∧ socket_or_nothing files path
  ∧ ((unlink_of files path).1 = None
     ∨ (unlink_of files path).1 = Some ENOENT).
Proof.
  unfold failed_socket_check, socket_or_nothing.
  destruct (107 <? _) eqn:Hlen; [done|]. apply Z.ltb_ge in Hlen.
  destruct (stat_of files path) as [[]|[]]; try done.
  all: destruct (unlink_of files path).1 as [[]|]; try done; eauto.
Qed.

Lemma unlink_of_lookup files path p :
  (unlink_of files path).2 !! p = files !! p
  ∨ (p = path ∧ (unlink_of files path).2 !! p = None).
Proof.
  unfold unlink_of. repeat case_match; simpl; auto.
  all: destruct (decide (p = path)) as [->|];
    [right; split; [done|apply lookup_delete_eq]
    |left; by apply lookup_delete_ne].
Qed.

Lemma fs_kept_refl s : fs_kept s s [].
Proof. done. Qed.

Lemma fs_kept_trans s1 s2 s3 t1 t2 :
  fs_kept s1 s2 t1 → fs_kept s2 s3 t2 → fs_kept s1 s3 (t1 ++ t2)%list.
Proof. unfold fs_kept. congruence. Qed.

Lemma tcp_configs_keeps_fs E cfg fam preferred :
  maintains fs_kept (tcp_configs E cfg fam preferred).
Proof.
  unfold tcp_configs, resolve_address, push_listen_address. cbv zeta.
  maintained fs_kept_refl fs_kept_trans; done.
Qed.

Lemma do_stop_server_keeps_fs E : maintains fs_kept (do_stop_server E).
Proof.
  unfold do_stop_server, set_cql_ready, add_local_application_state,
    unsubscribe_server, shutdown, hold_bg_stops.
  cbv zeta. maintained fs_kept_refl fs_kept_trans; done.
Qed.

Lemma listen_binds E k c s p :
  bound_or_kept [c] p s (listen E k c s).1.2.
Proof.
  unfold bound_or_kept, listen. run_monad. simpl.
  destruct (listen_fails E (addr c)); simpl; [by left|].
  destruct (addr c) as [ip port|path] eqn:Haddr; simpl; [by left|].
  destruct (decide (p = path)) as [->|].
  - right. rewrite lookup_insert_eq. split; [done|].
    apply list_elem_of_here.
  - left. by apply lookup_insert_ne.
Qed.

Lemma bound_or_kept_trans c configs p s1 s2 s3 :
  bound_or_kept [c] p s1 s2 → bound_or_kept configs p s2 s3 →
  bound_or_kept (c :: configs) p s1 s3.
Proof.
  unfold bound_or_kept. intros [H1|[H1 Hc]] [H2|[H2 Hc']].
  - left. congruence.
  - right. split; [done|]. by apply list_elem_of_further.
  - right. split; [congruence|]. apply list_elem_of_singleton in Hc.
    rewrite fmap_cons, <- Hc. apply list_elem_of_here.
  - right. split; [done|]. by apply list_elem_of_further.
Qed.

Lemma parallel_listen_binds E k configs s p :
  bound_or_kept configs p s (parallel_for_each configs (listen E k) s).1.2.
Proof.
  revert s. induction configs as [|c configs IH]; intros s.
  { by left. }
  pose proof (listen_binds E k c s p) as H1.
  destruct (listen E k c s) as [[r1 s1] t1] eqn:Hl. simpl in H1.
  specialize (IH s1).
  destruct (parallel_for_each configs (listen E k) s1) as [[r2 s2] t2] eqn:Hp.
  simpl in IH.
  assert (bound_or_kept (c :: configs) p s s2)
    by eauto using bound_or_kept_trans.
  simpl. run_monad. rewrite Hl.
  destruct r1; simpl; rewrite Hp; by destruct r2.
Qed.

Lemma serve_binds E k server_cfg configs s p :
  bound_or_kept configs p s (serve E k server_cfg configs s).1.2.
Proof.
  unfold serve, subscribe_server. run_monad. simpl.
  destruct (subscribe_fails E); simpl; [by left|].
  pose proof (parallel_listen_binds E k configs s p) as H1.
  destruct (parallel_for_each configs (listen E k) s) as [[r1 s1] t1].
  simpl in H1. destruct r1; simpl; [|done].
  rewrite set_cql_ready_run. simpl.
  by destruct (add_local_application_state_fails E RPC_READY _).
Qed.

Lemma inet_listeners_bind_nothing configs p s s' :
  Forall (λ c, ∃ ip port, addr c = inet_socket ip port) configs →
  bound_or_kept configs p s s' → fs s' !! p = fs s !! p.
Proof.
  intros Hall [H|[_ (c & Hc & Hin)%list_elem_of_fmap]]; [done|].
  rewrite list.Forall_forall in Hall.
  destruct (Hall c Hin) as (ip & port & Hc'). congruence.
Qed.

Lemma do_start_server_fs E s p :
  let s' := (do_start_server E s).1.2 in
  let path := maintenance_socket_path (_config (this s)) in
  fs s' !! p = fs s !! p
  ∨ (_used_by_maintenance_socket (this s) = true
     ∧ _server (this s) = None
     ∧ p = path
     ∧ socket_or_nothing (fs s) path
     ∧ (fs s' !! p = None ∨ fs s' !! p = Some (object S_IFSOCK None))).
Proof.
  cbv zeta. destruct (_server (this s)) as [srv|] eqn:Hsrv.
  { rewrite (do_start_server_running E s srv) by done. by left. }
  rewrite (do_start_server_phases E s) by done.
  destruct (create_smp_service_group_fails E); [by left|].
  unfold configure_listeners. cbv zeta.
  destruct (_used_by_maintenance_socket (this s));
    cbv beta iota delta [negb].
  - rewrite maintenance_configs_run. cbv zeta. simpl fs.
    destruct (failed_socket_check (fs s) _) as [c|] eqn:Hcheck; [by left|].
    apply failed_socket_check_none in Hcheck as (_ & Hsock & _).
    destruct (server_start_fails E).
    { simpl. destruct (unlink_of_lookup (fs s)
        (maintenance_socket_path (_config (this s))) p) as [?|[-> ?]];
        [by left|right; by eauto 10]. }
    match goal with
    | |- context [serve E ?k ?sc ?configs ?s2] =>
        pose proof (serve_binds E k sc configs s2 p) as Hserve;
        destruct (serve E k sc configs s2) as [[r s3] t3]
    end.
    unfold bound_or_kept in Hserve. simpl in *.
    destruct (unlink_of_lookup (fs s)
      (maintenance_socket_path (_config (this s))) p) as [Hun|[-> Hun]].
    + destruct Hserve as [Hs|[Hs Hin]]; [left; congruence|].
      apply list_elem_of_singleton in Hin as [= ->]. right. by eauto 10.
    + right. split_and!; [done..|].
      destruct Hserve as [Hs|[Hs _]]; [left; congruence|by right].
  - match goal with
    | |- context [tcp_configs E ?cfg ?fam ?pref ?s1] =>
        pose proof (tcp_configs_keeps_fs E cfg fam pref s1) as Hfs;
        pose proof (tcp_configs_inv E cfg fam pref s1) as Hinv;
        destruct (tcp_configs E cfg fam pref s1)
          as [[[configs|e] s2] t2]
    end; unfold fs_kept in Hfs; simpl in Hfs;
      [|left; simpl; by rewrite Hfs].
    destruct (Hinv configs s2 t2 eq_refl) as (ip & _ & -> & _).
    destruct (server_start_fails E); [left; simpl; by rewrite Hfs|].
    match goal with
    | |- context [serve E ?k ?sc ?configs ?s2] =>
        pose proof (serve_binds E k sc configs s2 p) as Hserve;
        destruct (serve E k sc configs s2) as [[r s3] t3]
    end.
    left. simpl in *. rewrite <- Hfs.
    eapply inet_listeners_bind_nothing; [|done].
    destruct (tcp_listeners_shape E (_config (this s)) ip) as (_ & H & _).
    eapply Forall_impl; [done|]. intros c [port ?]. by eauto.
Qed.

Lemma start_server_fs E s p :
  let s' := (start_server E s).1.2 in
  let path := maintenance_socket_path (_config (this s)) in
  fs s' !! p = fs s !! p
  ∨ (_used_by_maintenance_socket (this s) = true
     ∧ _server (this s) = None
     ∧ p = path
     ∧ socket_or_nothing (fs s) path
     ∧ (fs s' !! p = None ∨ fs s' !! p = Some (object S_IFSOCK None))).
Proof.
  cbv zeta. rewrite start_server_run.
  destruct (may_proceed _ 1); [|by left].
  pose proof (do_start_server_fs E (acquired s) p) as H.
  destruct (do_start_server E (acquired s)) as [[r s1] t]. exact H.
Qed.

Lemma request_stop_server_fs E s :
  fs (request_stop_server E s).1.2 = fs s.
Proof.
  rewrite request_stop_server_run.
  destruct (may_proceed _ 1); [|done].
  pose proof (do_stop_server_keeps_fs E (acquired s)) as H.
  destruct (do_stop_server E (acquired s)) as [[r s1] t]. exact H.
Qed.

(** ** A start over TCP *)

Lemma start_server_tcp E s s' t :
  _used_by_maintenance_socket (this s) = false →
  _server (this s) = None →
  start_server E s = (returned tt, s', t) →
  let cfg := _config (this s) in
  let server_cfg := get_cql_server_config E cfg in
  ∃ fam preferred ip,
    resolve E (rpc_address cfg) fam preferred = inr ip
    ∧ _server (this s')
      = Some {| server_config := server_cfg;
                listening := tcp_listeners E cfg ip |}
    ∧ listen_addresses (this s') = addr <$> tcp_listeners E cfg ip
    ∧ listens_succeed E (tcp_listeners E cfg ip) = true
    ∧ t = (EvCreateSmpServiceGroup 5000
           :: EvResolve (rpc_address cfg) fam preferred
           :: (if encryption_enabled E cfg then [EvConfigureTls] else [])
           ++ EvServerStart server_cfg
           :: EvSubscribe
           :: listen_events E (rpc_keepalive cfg) (tcp_listeners E cfg ip)
           ++ [ready_event true None])%list.
Proof.
  intros Hused Hsrv. rewrite start_server_run.
  destruct (may_proceed _ 1); [|done].
  rewrite (do_start_server_phases E (acquired s)) by done.
  destruct (create_smp_service_group_fails E); [done|].
  cbn [acquired with_this this _config _used_by_maintenance_socket
       set_ops_sem].
  rewrite Hused. unfold configure_listeners. cbv zeta.
  cbv beta iota delta [negb].
  match goal with
  | |- context [tcp_configs E ?cfg ?fam ?pref ?s1] =>
      pose proof (tcp_configs_inv E cfg fam pref s1) as Hinv;
      pose proof (tcp_configs_addresses E cfg fam pref s1) as Haddr;
      destruct (tcp_configs E cfg fam pref s1)
        as [[[configs|e0] s2] t2] eqn:Hcl
  end; [|done].
  destruct (Hinv configs s2 t2 eq_refl) as (ip & Hip & -> & ->).
  specialize (Haddr _ s2 _ eq_refl). simpl in Haddr.
  destruct (server_start_fails E); [done|].
  match goal with
  | |- context [serve E ?k ?sc ?configs s2] =>
      pose proof (serve_returned E k sc configs s2) as Hserve;
      destruct (serve E k sc configs s2) as [[r s3] t3]
  end.
  intros [= -> <- <-].
  destruct (Hserve s3 t3 eq_refl) as (Hthis & Hready & Hok & ->).
  eexists _, _, ip. split_and!; [done| | |done|].
  - simpl. by rewrite Hthis.
  - unfold listen_addresses. simpl. rewrite Hthis. simpl. done.
  - simpl. by destruct (encryption_enabled E (_config (this s))).
Qed.

(** X11: a start over TCP that returns has made exactly these calls, in
    this order: the service group, the address lookup, the TLS
    credentials when encryption is enabled, the server start, the
    subscription, one successful listen per listener, and the readiness
    bit.  The listeners are those of the closed form [tcp_listeners]:
    the index bookkeeping of the source ([native_port_idx],
    [native_shard_aware_port_idx]) puts the credentials on the listener
    they are meant for. *)
Theorem tcp_start_serves_the_configured_ports E s s' t :
  _used_by_maintenance_socket (this s) = false →
  _server (this s) = None →
  start_server E s = (returned tt, s', t) →
  let cfg := _config (this s) in
  let server_cfg := get_cql_server_config E cfg in
  ∃ fam preferred ip,
    resolve E (rpc_address cfg) fam preferred = inr ip
    ∧ _server (this s')
      = Some {| server_config := server_cfg;
                listening := tcp_listeners E cfg ip |}
    ∧ listen_addresses (this s') = addr <$> tcp_listeners E cfg ip
    ∧ listens_succeed E (tcp_listeners E cfg ip) = true
    ∧ t = (EvCreateSmpServiceGroup 5000
           :: EvResolve (rpc_address cfg) fam preferred
           :: (if encryption_enabled E cfg then [EvConfigureTls] else [])
           ++ EvServerStart server_cfg
           :: EvSubscribe
           :: listen_events E (rpc_keepalive cfg) (tcp_listeners E cfg ip)
           ++ [ready_event true None])%list.
Proof. exact (start_server_tcp E s s' t). Qed.


(** X13: a start over TCP can succeed without any listener.  When
    client encryption is disabled and, for both kinds, only the SSL port
    was set, a [start_server] that returns has started the server and
    published the readiness bit although it listens nowhere:
    [listen_addresses()] is empty and no listen call was made. *)
Theorem tcp_start_without_listeners E s s' t :
  _used_by_maintenance_socket (this s) = false →
  _server (this s) = None →
  start_server E s = (returned tt, s', t) →
  let cfg := _config (this s) in
  encryption_enabled E cfg = false →
  serves_plain_port (native_transport_port cfg)
    (native_transport_port_ssl cfg) = false →
  serves_plain_port (native_shard_aware_transport_port cfg)
    (native_shard_aware_transport_port_ssl cfg) = false →
  (∃ srv, _server (this s') = Some srv ∧ listening srv = [])
  ∧ listen_addresses (this s') = []
  ∧ Forall (λ e, is_listen e = false) t
  ∧ last t = Some (ready_event true None).
Proof.
  intros Hused Hsrv Hrun cfg Hen Hn Hsa.
  destruct (start_server_tcp E s s' t Hused Hsrv Hrun)
    as (fam & pref & ip & _ & Hserver & Haddr & _ & ->).
  destruct (tcp_listeners_shape E cfg ip) as (_ & _ & _ & Hnil).
  fold cfg in Hserver, Haddr |- *.
  rewrite (proj2 Hnil) in * by done. rewrite Hen.
  split_and!; [by eexists|done|by repeat constructor|done].
Qed.

(** ** The checks of the maintenance socket *)

(** X14: a failed check of the maintenance socket path changes nothing
    and names the first check that failed.  The controller and the file
    system are as before.  A path longer than 107 characters is
    reported without a system call, whatever is at the path; when
    [::stat], which follows symbolic links, finds something that is not
    a unix-domain socket, that is reported after the [stat] call and
    [unlink] is not called; [unlink] is called only when [::stat] found
    a socket or nothing (a symbolic link to nothing included), and when
    it fails with anything but [ENOENT] that failure is the error. *)
Theorem failed_socket_check_changes_nothing cfg s e s' t :
  maintenance_configs cfg s = (thrown e, s', t) →
  let path := maintenance_socket_path cfg in
  s' = s
  ∧ (107 < Z.of_nat (String.length path) →
     e = socket_check_error path path_too_long ∧ t = [])
  ∧ (Z.of_nat (String.length path) <= 107 →
     ∀ st_mode, stat_of (fs s) path = stat_ok st_mode →
       st_mode ≠ S_IFSOCK →
       e = socket_check_error path (not_a_socket st_mode)
       ∧ t = [EvStat path (stat_ok st_mode)])
  ∧ (∀ r, EvUnlink path r ∈ t →
       socket_or_nothing (fs s) path
       ∧ ∃ en, r = Some en ∧ en ≠ ENOENT
           ∧ (unlink_of (fs s) path).1 = Some en
           ∧ e = socket_check_error path (unlink_error_of en)).
Proof.
  intros Hrun path. pose proof (maintenance_configs_run cfg s) as Heq.
  cbv zeta in Heq. fold path in Heq. rewrite Hrun in Heq. clear Hrun.
  unfold failed_socket_check in Heq.
  destruct (107 <? Z.of_nat (String.length path)) eqn:Hlen.
  { apply Z.ltb_lt in Hlen. injection Heq as -> -> ->.
    split_and!; [done|done|lia|]. by intros r ?%elem_of_nil. }
  apply Z.ltb_ge in Hlen. unfold socket_or_nothing.
  destruct (stat_of (fs s) path) as [m|en] eqn:Hstat.
  - destruct m;
      try (injection Heq as -> -> ->; simpl; rewrite Hstat;
           split_and!; [done|lia|by intros _ ? [= <-] ?|];
           intros r [[=]|[]%elem_of_nil]%elem_of_cons).
    destruct (unlink_of (fs s) path).1 as [en|] eqn:Hun; [|done].
    destruct en; try done; injection Heq as -> -> ->; simpl; rewrite Hstat;
      (split_and!; [done|lia|by intros _ ? [= <-] ?|]);
      intros r [[=]|[[= ->]|[]%elem_of_nil]%elem_of_cons]%elem_of_cons;
      (split; [by left|]); eexists; by split_and!.
  - destruct en;
      try (injection Heq as -> -> ->; simpl; rewrite Hstat;
           split_and!; [done|lia|by intros _ ? [=]|];
           intros r [[=]|[]%elem_of_nil]%elem_of_cons).
    destruct (unlink_of (fs s) path).1 as [en|] eqn:Hun; [|done].
    destruct en; try done; injection Heq as -> -> ->; simpl; rewrite Hstat;
      (split_and!; [done|lia|by intros _ ? [=]|]);
      intros r [[=]|[[= ->]|[]%elem_of_nil]%elem_of_cons]%elem_of_cons;
      (split; [by right|]); eexists; by split_and!.
Qed.

Lemma stat_follow_object links files path t o :
  files !! path = Some (object t o) → stat_follow links files path = stat_ok t.
Proof. intros H. destruct links; simpl; by rewrite H. Qed.

Lemma start_server_removes_link E s target :
  _used_by_maintenance_socket (this s) = true →
  _server (this s) = None →
  may_proceed (_ops_sem (this s)) 1 = true →
  create_smp_service_group_fails E = None →
  let path := maintenance_socket_path (_config (this s)) in
  Z.of_nat (String.length path) <= 107 →
  fs s !! path = Some (symlink target None) →
  socket_or_nothing (fs s) path →
  let s' := (start_server E s).1.2 in
  fs s' !! path = None ∨ fs s' !! path = Some (object S_IFSOCK None).
Proof.
  intros Hused Hsrv Hp Hsmp path Hlen Hfs Hsock. cbv zeta.
  rewrite start_server_run, Hp.
  rewrite (do_start_server_phases E (acquired s)) by done. rewrite Hsmp.
  cbn [acquired with_this this _config _used_by_maintenance_socket
       set_ops_sem].
  rewrite Hused. unfold configure_listeners. cbv zeta.
  cbv beta iota delta [negb].
  rewrite maintenance_configs_run. cbv zeta. simpl fs. fold path.
  assert ((unlink_of (fs s) path).1 = None
          ∧ (unlink_of (fs s) path).2 !! path = None) as [Hun Hgone].
  { unfold unlink_of. rewrite Hfs. simpl. split; [done|].
    apply lookup_delete_eq. }
  assert (failed_socket_check (fs s) path = None) as ->.
  { unfold failed_socket_check.
    apply Z.ltb_ge in Hlen. rewrite Hlen.
    by destruct Hsock as [-> | ->]; rewrite Hun. }
  destruct (server_start_fails E); [by left|].
  match goal with
  | |- context [serve E ?k ?sc ?configs ?s2] =>
      pose proof (serve_binds E k sc configs s2 path) as Hserve;
      destruct (serve E k sc configs s2) as [[r s3] t3]
  end.
  unfold bound_or_kept in Hserve. simpl in *.
  destruct Hserve as [Hs|[Hs _]]; [left; congruence|by right].
Qed.

(** X15: what the entry points do to the file system.  [start_server]
    leaves every path as it was, except that a controller for the
    maintenance socket with no server running may remove or create the
    entry at its socket path, and only when [::stat], which follows
    symbolic links, found a unix-domain socket or nothing there.  So a
    file, directory or other object that is not a socket stays, but a
    symbolic link at the socket path that leads to a socket or to
    nothing does not: once the service group exists it is removed.
    [request_stop_server] leaves the file system as it was: the socket
    file of a stopped server stays behind. *)
Theorem entry_points_touch_only_the_socket E s :
  (∀ p,
     let s' := (start_server E s).1.2 in
     fs s' !! p = fs s !! p
     ∨ (_used_by_maintenance_socket (this s) = true
        ∧ _server (this s) = None
        ∧ p = maintenance_socket_path (_config (this s))
        ∧ socket_or_nothing (fs s) p
        ∧ (fs s' !! p = None ∨ fs s' !! p = Some (object S_IFSOCK None))))
  ∧ (∀ p st_mode o,
       st_mode ≠ S_IFSOCK →
       fs s !! p = Some (object st_mode o) →
       fs (start_server E s).1.2 !! p = Some (object st_mode o))
  ∧ (∀ target,
       let path := maintenance_socket_path (_config (this s)) in
       let s' := (start_server E s).1.2 in
       _used_by_maintenance_socket (this s) = true →
       _server (this s) = None →
       may_proceed (_ops_sem (this s)) 1 = true →
       create_smp_service_group_fails E = None →
       Z.of_nat (String.length path) <= 107 →
       fs s !! path = Some (symlink target None) →
       socket_or_nothing (fs s) path →
       fs s' !! path = None ∨ fs s' !! path = Some (object S_IFSOCK None))
  ∧ fs (request_stop_server E s).1.2 = fs s.
Proof.
  split_and!.
  - intros p. cbv zeta.
    destruct (start_server_fs E s p) as [?|(?&?&->&?&?)]; [by left|].
    right. by split_and!.
  - intros p m o Hm Hp.
    destruct (start_server_fs E s p) as [->|(_&_&->&[Hs|Hs]&_)]; [done|..];
      unfold stat_of in Hs;
      rewrite (stat_follow_object _ _ _ _ _ Hp) in Hs; congruence.
  - intros target. apply start_server_removes_link.
  - apply request_stop_server_fs.
Qed.

(** ** A start over the maintenance socket *)

Lemma serve_unix_returned E k server_cfg c path s s' t :
  addr c = unix_domain_addr path →
  serve E k server_cfg [c] s = (returned tt, s', t) →
  fs s' = <[path := object S_IFSOCK None]> (fs s).
Proof.
  intros Haddr. unfold serve, subscribe_server, parallel_for_each, listen.
  rewrite Haddr. run_monad. simpl.
  destruct (subscribe_fails E); simpl; [done|].
  destruct (listen_fails E (unix_domain_addr path)); simpl; [done|].
  rewrite set_cql_ready_run. simpl.
  destruct (add_local_application_state_fails E RPC_READY _); simpl; [done|].
  by intros [= <- <-].
Qed.

Lemma start_server_maintenance E s s' t :
  _used_by_maintenance_socket (this s) = true →
  _server (this s) = None →
  start_server E s = (returned tt, s', t) →
  let cfg := _config (this s) in
  let path := maintenance_socket_path cfg in
  let server_cfg := get_cql_server_config E cfg in
  let c := {| addr := unix_domain_addr path; is_shard_aware := false;
              cred := None |} in
  failed_socket_check (fs s) path = None
  ∧ _server (this s')
    = Some {| server_config := server_cfg; listening := [c] |}
  ∧ listen_addresses (this s') = [unix_domain_addr path]
  ∧ fs s' = <[path := object S_IFSOCK None]> (unlink_of (fs s) path).2
  ∧ t = [EvCreateSmpServiceGroup 5000;
         EvStat path (stat_of (fs s) path);
         EvUnlink path (unlink_of (fs s) path).1;
         EvServerStart server_cfg;
         EvSubscribe;
         EvListen c (rpc_keepalive cfg) None;
         ready_event true None].
Proof.
  intros Hused Hsrv. rewrite start_server_run.
  destruct (may_proceed _ 1); [|done].
  rewrite (do_start_server_phases E (acquired s)) by done.
  destruct (create_smp_service_group_fails E); [done|].
  cbn [acquired with_this this _config _used_by_maintenance_socket
       set_ops_sem].
  rewrite Hused. unfold configure_listeners. cbv zeta.
  cbv beta iota delta [negb].
  rewrite maintenance_configs_run. cbv zeta. simpl fs.
  destruct (failed_socket_check (fs s) _) as [c|] eqn:Hcheck; [done|].
  destruct (server_start_fails E); [done|].
  match goal with
  | |- context [serve E ?k ?sc [?c] ?s2] =>
      pose proof (serve_returned E k sc [c] s2) as Hserve;
      pose proof (serve_unix_returned E k sc c
        (maintenance_socket_path (_config (this s))) s2) as Hfs;
      destruct (serve E k sc [c] s2) as [[r s3] t3]
  end.
  intros [= -> <- <-].
  destruct (Hserve s3 t3 eq_refl) as (Hthis & Hready & Hok & ->).
  specialize (Hfs s3 _ eq_refl eq_refl).
  unfold listens_succeed in Hok. simpl in Hok.
  destruct (listen_fails E _) eqn:Hl; [done|].
  split_and!; [done| | |done|].
  - simpl. by rewrite Hthis.
  - unfold listen_addresses. simpl. rewrite Hthis. simpl. done.
  - unfold listen_events. simpl. by rewrite Hl.
Qed.

(** X16: a start over the maintenance socket that returns has made
    exactly seven calls: the service group, [stat] and [unlink] on the
    socket path, the server start, the subscription, one successful
    listen on the socket path, and the readiness bit.  No check failed,
    the one listener is the socket, and a socket file is at the path
    afterwards. *)
Theorem maintenance_start_serves_the_socket E s s' t :
  _used_by_maintenance_socket (this s) = true →
  _server (this s) = None →
  start_server E s = (returned tt, s', t) →
  let cfg := _config (this s) in
  let path := maintenance_socket_path cfg in
  let server_cfg := get_cql_server_config E cfg in
  let c := {| addr := unix_domain_addr path; is_shard_aware := false;
              cred := None |} in
  failed_socket_check (fs s) path = None
  ∧ _server (this s')
    = Some {| server_config := server_cfg; listening := [c] |}
  ∧ listen_addresses (this s') = [unix_domain_addr path]
  ∧ fs s' = <[path := object S_IFSOCK None]> (unlink_of (fs s) path).2
  ∧ t = [EvCreateSmpServiceGroup 5000;
         EvStat path (stat_of (fs s) path);
         EvUnlink path (unlink_of (fs s) path).1;
         EvServerStart server_cfg;
         EvSubscribe;
         EvListen c (rpc_keepalive cfg) None;
         ready_event true None].
Proof. exact (start_server_maintenance E s s' t). Qed.

Lemma entry_points_keep_config E s :
  _config (this (start_server E s).1.2) = _config (this s)
  ∧ _config (this (request_stop_server E s).1.2) = _config (this s).
Proof.
  rewrite start_server_run, request_stop_server_run.
  destruct (may_proceed _ 1); [|done].
  pose proof (do_start_server_keeps_lifecycle E (acquired s)) as H1.
  pose proof (do_stop_server_keeps_lifecycle E (acquired s)) as H2.
  destruct (do_start_server E (acquired s)) as [[r1 s1] t1].
  destruct (do_stop_server E (acquired s)) as [[r2 s2] t2].
  destruct H1 as (_ & _ & H1 & _), H2 as (_ & _ & H2 & _). done.
Qed.

(** X17: the socket file of a stopped server does not block the next
    start.  After a start over the maintenance socket that returned,
    and a [request_stop_server] however it ended, the configuration is
    the same, the socket file is still at the path, and the checks of
    the next start pass: [stat] finds the socket, [unlink] removes it,
    and the listener for the path is worked out. *)
Theorem maintenance_socket_is_reused_after_stop E E' s s1 t1 :
  _used_by_maintenance_socket (this s) = true →
  _server (this s) = None →
  start_server E s = (returned tt, s1, t1) →
  let s2 := (request_stop_server E' s1).1.2 in
  let path := maintenance_socket_path (_config (this s)) in
  _config (this s2) = _config (this s)
  ∧ fs s2 !! path = Some (object S_IFSOCK None)
  ∧ ∃ s3,
      maintenance_configs (_config (this s2)) s2
      = (returned [{| addr := unix_domain_addr path;
                      is_shard_aware := false; cred := None |}],
         s3,
         [EvStat path (stat_ok S_IFSOCK); EvUnlink path None])
      ∧ fs s3 !! path = None.
Proof.
  intros Hused Hsrv Hrun s2 path.
  destruct (start_server_maintenance E s s1 t1 Hused Hsrv Hrun)
    as (Hcheck & _ & _ & Hfs & _).
  apply failed_socket_check_none in Hcheck as (Hlen & _ & _).
  destruct (entry_points_keep_config E s) as [Hc1 _].
  destruct (entry_points_keep_config E' s1) as [_ Hc2].
  rewrite Hrun in Hc1. simpl in Hc1. fold s2 in Hc2.
  assert (_config (this s2) = _config (this s)) as Hcfg by congruence.
  assert (fs s2 !! path = Some (object S_IFSOCK None)) as Hsock.
  { unfold s2. rewrite request_stop_server_fs, Hfs.
    apply lookup_insert_eq. }
  split_and!; [done|done|].
  rewrite maintenance_configs_run, Hcfg. cbv zeta. fold path.
  unfold failed_socket_check, stat_of, unlink_of.
  rewrite (stat_follow_object _ _ _ _ _ Hsock), Hsock.
  apply Z.ltb_ge in Hlen. fold path in Hlen. rewrite Hlen. simpl.
  eexists. split; [done|]. simpl. apply lookup_delete_eq.
Qed.

Lemma string_length_append (a b : string) :
  String.length (a +:+ b) = (String.length a + String.length b)%nat.
Proof. induction a as [|x a IH]; simpl; [done|by rewrite IH]. Qed.

(** X18: the socket in the work directory.  With [maintenance_socket]
    set to [workdir] the socket path is [cql.m] in the work directory,
    and the path is rejected as too long exactly when the work
    directory has more than 101 characters. *)
Theorem workdir_socket_path cfg s :
  maintenance_socket cfg = "workdir" →
  maintenance_socket_path cfg = work_directory cfg +:+ "/cql.m"
  ∧ ((maintenance_configs cfg s).1.1
     = thrown (socket_check_error (maintenance_socket_path cfg)
                 path_too_long)
     ↔ 101 < Z.of_nat (String.length (work_directory cfg))).
Proof.
  intros Hsock.
  assert (maintenance_socket_path cfg = work_directory cfg +:+ "/cql.m")
    as Hpath.
  { unfold maintenance_socket_path. cbv zeta. by rewrite Hsock. }
  split; [done|].
  rewrite maintenance_configs_run. cbv zeta. unfold failed_socket_check.
  assert (Z.of_nat (String.length (maintenance_socket_path cfg))
          = Z.of_nat (String.length (work_directory cfg)) + 6) as Hlen.
  { rewrite Hpath, string_length_append. simpl. lia. }
  destruct (107 <? _) eqn:Hlt.
  - apply Z.ltb_lt in Hlt. simpl. split; [lia|done].
  - apply Z.ltb_ge in Hlt. split; [|lia].
    destruct (stat_of _ _) as [[]|[]]; simpl; try (by intros [=]);
      destruct (unlink_of _ _).1 as [[]|]; simpl; by intros [=].
Qed.

(** ** The properties at the example inputs *)

Ltac computed := vm_compute; reflexivity.

(** A second start of the running example server. *)
Lemma second_start_witness :
  start_server Examples.all_succeed running_tcp = (returned tt, running_tcp, []).
Proof.
  eapply start_server_when_running_changes_nothing; computed.
Defined.

(** A stop of the example controller before any start. *)
Lemma early_stop_witness :
  request_stop_server Examples.all_succeed Examples.fresh_tcp
  = (returned tt, Examples.fresh_tcp, []).
Proof.
  apply request_stop_server_when_not_running_changes_nothing; computed.
Defined.


(** No address can be bound: the start fails, the server that had been
    started is unsubscribed and stopped, nothing is left. *)
Lemma refused_start_witness :
  _server (this (start_server listen_refused Examples.fresh_tcp).1.2) = None
  ∧ listen_addresses
      (this (start_server listen_refused Examples.fresh_tcp).1.2) = []
  ∧ ∃ t0, (start_server listen_refused Examples.fresh_tcp).2
          = (t0 ++ [EvUnsubscribe; EvServerStop])%list.
Proof.
  destruct (failed_start_leaves_nothing_behind listen_refused
              Examples.fresh_tcp
              (external_error "Address already in use")
              (start_server listen_refused Examples.fresh_tcp).1.2
              (start_server listen_refused Examples.fresh_tcp).2)
    as (H1 & H2 & _ & _ & _ & H3); [computed..|].
  split_and!; [exact H1|exact H2|].
  apply H3; [reflexivity|].
  vm_compute. do 3 apply list_elem_of_further. apply list_elem_of_here.
Defined.

(** The start of the example: two listeners, both reported. *)
Lemma example_start_witness :
  ∃ srv,
    _server (this running_tcp) = Some srv
    ∧ listen_addresses (this running_tcp) = addr <$> listening srv
    ∧ rpc_ready running_tcp = Some (cql_ready true).
Proof.
  destruct (successful_start_serves_what_it_reports Examples.all_succeed
              Examples.fresh_tcp running_tcp
              (start_server Examples.all_succeed Examples.fresh_tcp).2)
    as (srv & H1 & _ & H2 & _ & H3 & _); [computed..|].
  exists srv. split_and!; [exact H1|exact H2|exact H3].
Defined.

(** Stopping the running example server. *)
Lemma example_stop_witness :
  ∃ s' t,
    request_stop_server Examples.all_succeed running_tcp
    = (returned tt, s', t)
    ∧ _server (this s') = None
    ∧ last t = Some EvServerStop.
Proof.
  destruct (stop_always_stops_and_reports_first_failure Examples.all_succeed
              running_tcp
              {| server_config :=
                   get_cql_server_config Examples.all_succeed
                     Examples.example_config;
                 listening :=
                   tcp_listeners Examples.all_succeed
                     Examples.example_config 2130706433%N |})
    as (s' & t & H1 & H2 & _ & _ & _ & _ & H3 & _); [computed..|].
  exists s', t. split_and!; [exact H1|exact H2|exact H3].
Defined.


(** [stop_server] on the fresh example controller, then a start. *)
Lemma stopped_example_witness :
  start_server Examples.all_succeed
    (now (run [call_stop_server; call_start_server]
            (initially Examples.example_config false ∅)))
  = (thrown (runtime_error "CQL server is stopping, try again later"),
     now (run [call_stop_server; call_start_server]
            (initially Examples.example_config false ∅)), []).
Proof.
  destruct (stop_server_is_final (initially Examples.example_config false ∅)
              [call_start_server] Examples.all_succeed)
    as (_ & H & _); [by eexists _, _, _, [] |reflexivity|exact H].
Defined.


(** A second start while the start of the example is in flight. *)
Lemma second_start_in_flight_witness :
  start_server Examples.all_succeed (now Examples.starting)
  = (thrown (runtime_error "CQL server is stopping, try again later"),
     now Examples.starting, []).
Proof.
  destruct (retry_message_names_the_opposite_operation Examples.starting
              Examples.all_succeed) as (H & _); [by eexists _, _, _, _|].
  apply H. reflexivity.
Defined.

(** The calls of the start of the example. *)
Lemma example_start_calls_witness :
  ∃ fam preferred ip,
    (start_server Examples.all_succeed Examples.fresh_tcp).2
    = [EvCreateSmpServiceGroup 5000;
       EvResolve "localhost" fam preferred;
       EvServerStart
         (get_cql_server_config Examples.all_succeed Examples.example_config);
       EvSubscribe;
       EvListen {| addr := inet_socket ip 9042; is_shard_aware := false;
                   cred := None |} true None;
       EvListen {| addr := inet_socket ip 19042; is_shard_aware := true;
                   cred := None |} true None;
       ready_event true None].
Proof.
  destruct (tcp_start_serves_the_configured_ports Examples.all_succeed
              Examples.fresh_tcp running_tcp
              (start_server Examples.all_succeed Examples.fresh_tcp).2)
    as (fam & pref & ip & Hip & _ & _ & _ & H); [computed..|].
  exists fam, pref, ip. rewrite H.
  injection Hip as <-. reflexivity.
Defined.


(** Only the SSL ports set and encryption disabled: the server is
    started and listens nowhere. *)
Lemma no_listener_witness :
  rpc_ready (start_server Examples.all_succeed fresh_ssl_only).1.2
  = Some (cql_ready true)
  ∧ listen_addresses
      (this (start_server Examples.all_succeed fresh_ssl_only).1.2) = [].
Proof.
  destruct (tcp_start_without_listeners Examples.all_succeed fresh_ssl_only
              (start_server Examples.all_succeed fresh_ssl_only).1.2
              (start_server Examples.all_succeed fresh_ssl_only).2)
    as (_ & H & _); [computed..|].
  split; [computed|exact H].
Defined.

(** The regular file of the example at the socket path. *)
Lemma regular_file_witness :
  (maintenance_configs Examples.example_config
     Examples.blocked_by_regular_file).1.2
  = Examples.blocked_by_regular_file.
Proof.
  destruct (failed_socket_check_changes_nothing Examples.example_config
              Examples.blocked_by_regular_file
              (socket_check_error Examples.example_socket_path
                 (not_a_socket S_IFREG))
              (maintenance_configs Examples.example_config
                 Examples.blocked_by_regular_file).1.2
              [EvStat Examples.example_socket_path (stat_ok S_IFREG)])
    as (H & _); [computed|exact H].
Defined.

(** A symbolic link to nothing at the socket path of the example: the
    start removes it and binds the socket in its place. *)
Lemma dangling_link_witness :
  stat_of (fs behind_dangling_link) Examples.example_socket_path
  = stat_failed ENOENT
  ∧ (fs (start_server Examples.all_succeed behind_dangling_link).1.2
       !! Examples.example_socket_path = None
     ∨ fs (start_server Examples.all_succeed behind_dangling_link).1.2
         !! Examples.example_socket_path
       = Some (object S_IFSOCK None)).
Proof.
  pose proof (entry_points_touch_only_the_socket Examples.all_succeed
                behind_dangling_link) as (_ & _ & H & _).
  split; [computed|].
  apply (H "/run/scylla/cql.m"); try computed.
  - by vm_compute.
  - right. computed.
Defined.

(** The start of the example over the maintenance socket. *)
Lemma maintenance_start_witness :
  fs (start_server Examples.all_succeed fresh_maintenance).1.2
    !! Examples.example_socket_path
  = Some (object S_IFSOCK None)
  ∧ listen_addresses
      (this (start_server Examples.all_succeed fresh_maintenance).1.2)
    = [unix_domain_addr Examples.example_socket_path].
Proof.
  destruct (maintenance_start_serves_the_socket Examples.all_succeed
              fresh_maintenance
              (start_server Examples.all_succeed fresh_maintenance).1.2
              (start_server Examples.all_succeed fresh_maintenance).2)
    as (_ & _ & H1 & H2 & _); [computed..|].
  split; [|exact H1]. rewrite H2. apply lookup_insert_eq.
Defined.

(** Start and stop of the example over the maintenance socket: the
    socket file is still there. *)
Lemma socket_reuse_witness :
  fs (request_stop_server Examples.all_succeed
        (start_server Examples.all_succeed fresh_maintenance).1.2).1.2
    !! Examples.example_socket_path
  = Some (object S_IFSOCK None).
Proof.
  destruct (maintenance_socket_is_reused_after_stop Examples.all_succeed
              Examples.all_succeed fresh_maintenance
              (start_server Examples.all_succeed fresh_maintenance).1.2
              (start_server Examples.all_succeed fresh_maintenance).2)
    as (_ & H & _); [computed..|exact H].
Defined.

(** The socket of the example is in its work directory. *)
Lemma workdir_witness :
  maintenance_socket_path Examples.example_config = "/var/lib/scylla/cql.m".
Proof.
  destruct (workdir_socket_path Examples.example_config Examples.fresh_tcp)
    as (H & _); [reflexivity|]. rewrite H. reflexivity.
Defined.

(** ** A [stop_server] that has to wait *)

Lemma do_stop_server_takes_server E s :
  _server (this (do_stop_server E s).1.2) = None.
Proof.
  unfold do_stop_server, unsubscribe_server, shutdown, hold_bg_stops.
  run_monad. destruct (_server (this s)); [|done].
  rewrite set_cql_ready_run. cbv zeta. simpl.
  destruct (add_local_application_state_fails E RPC_READY (cql_ready false));
    destruct (unsubscribe_fails E); destruct (shutdown_fails E);
    destruct (stop_ready E);
    destruct (closed (_bg_stops (this s))) eqn:Hc; simpl; rewrite ?Hc; done.
Qed.

Lemma waiting_stop_server y op E E' :
  lifecycle_invariant y →
  in_flight y = Some op → op ≠ op_stop_server →
  let y1 := step call_stop_server y in
  let y2 := step (complete E) y1 in
  let y3 := step (complete E') y2 in
  (in_flight y1 = Some op
   ∧ waiters (_ops_sem (this (now y1)))
     = S (waiters (_ops_sem (this (now y))))
   ∧ may_proceed (_ops_sem (this (now y1))) 1 = false)
  ∧ (in_flight y2 = Some op_stop_server
     ∧ _stopped (this (now y2)) = true
     ∧ broken (_ops_sem (this (now y2))) = true
     ∧ _listen_addresses (this (now y2)) = []
     ∧ may_proceed (_ops_sem (this (now y2))) 1 = false)
  ∧ (in_flight y3 = None
     ∧ _stopped (this (now y3)) = true
     ∧ _server (this (now y3)) = None
     ∧ may_proceed (_ops_sem (this (now y3))) 1 = false).
Proof.
  intros Hy Hop Hne. unfold lifecycle_invariant in Hy. rewrite Hop in Hy.
  assert (count (_ops_sem (this (now y))) = 0
          ∧ broken (_ops_sem (this (now y))) = false
          ∧ _stopped (this (now y)) = false) as (Hc & Hb & Hs).
  { by destruct op. }
  assert (may_proceed (_ops_sem (this (now y))) 1 = false) as Hp.
  { apply may_proceed_false. lia. }
  assert (step call_stop_server y
          = {| now := with_this
                        (λ c, set_ops_sem (add_waiter (_ops_sem c)) c) (now y);
               in_flight := Some op |}) as Hy1.
  { unfold step. cbv zeta. by rewrite Hs, Hp, Hb, Hop. }
  set (s1 := with_this (λ c, set_ops_sem (add_waiter (_ops_sem c)) c) (now y))
    in *.
  assert ((completed E op s1).2 = true) as Hres.
  { assert ((signal (_ops_sem (this s1))).1 = true) as Hsig.
    { unfold signal, s1. simpl. rewrite Hb, Hc. reflexivity. }
    by destruct op. }
  set (s2 := with_this stop_server_acquired (completed E op s1).1).
  assert (step (complete E) (step call_stop_server y)
          = {| now := s2; in_flight := Some op_stop_server |}) as Hy2.
  { rewrite Hy1. unfold step. cbn [in_flight now].
    destruct (completed E op s1) as [s r] eqn:Hcomp. simpl in Hres.
    by rewrite Hres. }
  set (s3 := (completed E' op_stop_server s2).1).
  assert (step (complete E') (step (complete E) (step call_stop_server y))
          = {| now := s3; in_flight := None |}) as Hy3.
  { rewrite Hy2. unfold step, s3, completed. cbn [in_flight now fst].
    reflexivity. }
  assert (_stopped (this s3) = true
          ∧ _server (this s3) = None
          ∧ _ops_sem (this s3) = _ops_sem (this s2)) as (Hs3 & Hsrv3 & Hsem3).
  { unfold s3, completed. cbn [fst].
    pose proof (do_stop_server_keeps_lifecycle E' s2) as (Hk1 & Hk2 & _).
    pose proof (do_stop_server_takes_server E' s2) as Hk3.
    destruct (do_stop_server E' s2) as [[[] s] t]; simpl in *;
      rewrite Hk1, Hk2, Hk3; done. }
  cbv zeta. rewrite Hy3, Hy2, Hy1. cbn [in_flight now]. rewrite Hsem3.
  split_and!; try done.
  apply may_proceed_false. simpl. lia.
Qed.

(** X19: a [stop_server] that has to wait runs next.  When
    [stop_server] is called while a [start_server] or a
    [request_stop_server] is in flight, it is suspended and the
    operation in flight goes on; as soon as that operation completes,
    however it ends, [stop_server] has the unit: the controller is
    stopped, the semaphore broken and the listen addresses cleared; and
    when [stop_server] completes, however [do_stop_server] ends, the
    controller has no server and no operation is in flight.  From the
    call of [stop_server] on, every [start_server] and every
    [request_stop_server] is turned away without a change or a call. *)
Theorem waiting_stop_server_runs_next y op E E' E0 :
  reachable y →
  in_flight y = Some op → op ≠ op_stop_server →
  let y1 := step call_stop_server y in
  let y2 := step (complete E) y1 in
  let y3 := step (complete E') y2 in
  in_flight y1 = Some op
  ∧ (in_flight y2 = Some op_stop_server
     ∧ _stopped (this (now y2)) = true
     ∧ broken (_ops_sem (this (now y2))) = true
     ∧ _listen_addresses (this (now y2)) = [])
  ∧ (in_flight y3 = None
     ∧ _stopped (this (now y3)) = true
     ∧ _server (this (now y3)) = None)
  ∧ Forall (λ y',
      start_server E0 (now y')
      = (thrown (runtime_error "CQL server is stopping, try again later"),
         now y', [])
      ∧ request_stop_server E0 (now y')
        = (thrown (runtime_error "CQL server is starting, try again later"),
           now y', [])) [y1; y2; y3].
Proof.
  intros Hy Hop Hne.
  destruct (waiting_stop_server y op E E' (invariant_reachable y Hy) Hop Hne)
    as ((H1 & _ & Hp1) & (H2 & Hs2 & Hb2 & Hl2 & Hp2) & (H3 & Hs3 & Hsrv3 & Hp3)).
  cbv zeta. split_and!; try done.
  repeat constructor;
    by first [ apply start_server_unavailable
             | apply request_stop_server_unavailable ].
Qed.

(** ** The background gate *)

Lemma do_stop_server_keeps_gate_open E s :
  closed (_bg_stops (this (do_stop_server E s).1.2))
  = closed (_bg_stops (this s)).
Proof.
  unfold do_stop_server, unsubscribe_server, shutdown, hold_bg_stops.
  run_monad. destruct (_server (this s)); [|done].
  rewrite set_cql_ready_run. cbv zeta. simpl.
  destruct (add_local_application_state_fails E RPC_READY (cql_ready false));
    destruct (unsubscribe_fails E); destruct (shutdown_fails E);
    destruct (stop_ready E);
    destruct (closed (_bg_stops (this s))) eqn:Hc; simpl; rewrite ?Hc; done.
Qed.

Lemma gate_open_step a y :
  lifecycle_invariant y →
  (_stopped (this (now y)) = false →
   closed (_bg_stops (this (now y))) = false) →
  _stopped (this (now (step a y))) = false →
  closed (_bg_stops (this (now (step a y)))) = false.
Proof.
  intros Hy Hopen Hs'.
  assert (_stopped (this (now y)) = false) as Hs.
  { destruct (_stopped (this (now y))) eqn:Hs; [|done].
    by rewrite (stopped_stays a y Hs) in Hs'. }
  specialize (Hopen Hs). revert Hs'.
  destruct a as [| | |E|files|]; unfold step.
  - rewrite try_wait_ops_sem_run. by destruct (may_proceed _ 1).
  - rewrite try_wait_ops_sem_run. by destruct (may_proceed _ 1).
  - cbv zeta. rewrite Hs.
    destruct (may_proceed _ 1); [done|]. by destruct (broken _).
  - destruct (in_flight y) as [op|] eqn:Hop; [|done].
    unfold lifecycle_invariant in Hy. rewrite Hop in Hy.
    destruct op; unfold completed.
    + pose proof (do_start_server_keeps_bg_stops E (now y)) as Hk.
      unfold bg_stops_kept, finally, signal_ops_sem, modify in *.
      destruct (do_start_server E (now y)) as [[r s1] t1]. simpl in *.
      destruct (signal _).1; simpl; [done|]. by rewrite Hk.
    + pose proof (do_stop_server_keeps_gate_open E (now y)) as Hk.
      unfold finally, signal_ops_sem, modify in *.
      destruct (do_stop_server E (now y)) as [[r s1] t1]. simpl in *.
      destruct (signal _).1; simpl; [done|]. by rewrite Hk.
    + destruct Hy as (_ & _ & _ & Hst). congruence.
  - done.
  - done.
Qed.

Lemma gate_open_until_stopped y :
  reachable y → _stopped (this (now y)) = false →
  closed (_bg_stops (this (now y))) = false.
Proof.
  intros (cfg & m & files & l & ->).
  induction l as [|a l IH] using rev_ind; [done|].
  rewrite run_snoc. apply gate_open_step; [|done].
  apply invariant_reachable. by eexists _, _, _, _.
Qed.

(** X20: [stop_server] on a running server closes the background gate
    only when stopping went well.  Called on a controller the program
    can reach, with a server running, no operation in flight and
    [stop_server] not called before, it takes the unit at once, marks
    the controller stopped, breaks the semaphore and clears the listen
    addresses, so that [listen_addresses()] is empty while the server
    is still there.  When it has completed the server is gone.  The
    gate is closed exactly when neither the gossip call nor
    unsubscribing nor the shutdown failed, and then no holder is left
    in it: [_bg_stops.close()] resolves only when every stop in the
    background has resolved.  An exception of [do_stop_server] leaves
    [stop_server] before [_bg_stops.close()]: the gate stays open, and
    the stop of the server holds it until it resolves. *)
Theorem stop_server_closes_the_gate_only_on_success y E srv :
  reachable y →
  in_flight y = None →
  _stopped (this (now y)) = false →
  _server (this (now y)) = Some srv →
  let y1 := step call_stop_server y in
  let y2 := step (complete E) y1 in
  (in_flight y1 = Some op_stop_server
   ∧ _stopped (this (now y1)) = true
   ∧ broken (_ops_sem (this (now y1))) = true
   ∧ _server (this (now y1)) = Some srv
   ∧ _listen_addresses (this (now y1)) = [])
  ∧ (in_flight y2 = None
     ∧ _server (this (now y2)) = None
     ∧ (closed (_bg_stops (this (now y2))) = true
        ↔ add_local_application_state_fails E RPC_READY (cql_ready false)
          = None
          ∧ unsubscribe_fails E = None
          ∧ shutdown_fails E = None)
     ∧ (closed (_bg_stops (this (now y2))) = true →
        holders (_bg_stops (this (now y2))) = 0%nat)
     ∧ (closed (_bg_stops (this (now y2))) = false →
        holders (_bg_stops (this (now y2)))
        = if stop_ready E then holders (_bg_stops (this (now y)))
          else S (holders (_bg_stops (this (now y)))))).
Proof.
  intros Hy Hidle Hs Hsrv.
  destruct (idle_has_unit y (invariant_reachable y Hy) Hidle Hs) as [Hp Hb].
  pose proof (gate_open_until_stopped y Hy Hs) as Hopen.
  set (s1 := with_this (λ c, stop_server_acquired
                          (set_ops_sem (take_unit (_ops_sem c)) c)) (now y)).
  assert (step call_stop_server y
          = {| now := s1; in_flight := Some op_stop_server |}) as Hy1.
  { unfold step. cbv zeta. by rewrite Hs, Hp. }
  cbv zeta. rewrite Hy1. split; [by split_and!|].
  unfold step, completed. cbn [in_flight now].
  destruct (do_stop_server_outcome E s1 srv) as (s2 & -> & Hthis & _);
    [done..|].
  destruct (add_local_application_state_fails E RPC_READY (cql_ready false));
    destruct (unsubscribe_fails E); destruct (shutdown_fails E);
    destruct (stop_ready E);
    cbn [now in_flight]; unfold with_this, close_bg_stops; simpl;
    rewrite Hthis; simpl; rewrite ?Hopen;
    (split_and!; [done|done|split; [try done|try done]|done|done]);
    by intros (?&?&?).
Qed.

(** [stop_server] arrives while the start of the example is in flight:
    the start completes, then the stop, and the server is gone. *)
Lemma waiting_stop_witness :
  in_flight
    (step (complete Examples.all_succeed)
       (step (complete Examples.all_succeed)
          (step call_stop_server Examples.starting))) = None
  ∧ _server
      (this (now
         (step (complete Examples.all_succeed)
            (step (complete Examples.all_succeed)
               (step call_stop_server Examples.starting))))) = None.
Proof.
  destruct (waiting_stop_server_runs_next Examples.starting op_start_server
              Examples.all_succeed Examples.all_succeed Examples.all_succeed)
    as (_ & _ & (H1 & _ & H2) & _);
    [by eexists _, _, _, _|reflexivity|discriminate|].
  split; [exact H1|exact H2].
Defined.

(** [stop_server] on the running example server: the gate is closed
    and empty. *)
Lemma closed_gate_witness :
  closed (_bg_stops (this (now
    (step (complete Examples.all_succeed) (step call_stop_server serving)))))
  = true
  ∧ holders (_bg_stops (this (now
      (step (complete Examples.all_succeed)
         (step call_stop_server serving)))))
    = 0%nat.
Proof.
  destruct (stop_server_closes_the_gate_only_on_success serving
              Examples.all_succeed
              {| server_config :=
                   get_cql_server_config Examples.all_succeed
                     Examples.example_config;
                 listening :=
                   tcp_listeners Examples.all_succeed
                     Examples.example_config 2130706433%N |})
    as (_ & _ & _ & H & H0 & _);
    [by eexists _, _, _, _|computed..|].
  assert (closed (_bg_stops (this (now
            (step (complete Examples.all_succeed)
               (step call_stop_server serving))))) = true) as Hc.
  { apply H. by split_and!. }
  split; [exact Hc|exact (H0 Hc)].
Defined.

(** ** The readiness bit *)






End LifecycleFacts.
